(** * multi-party-sig: Paillier secret keys, CMP keygen rounds 4/output, and
    the set-up of CMP signing.

    A shallow embedding of
      - pkg/paillier/secret.go
      - protocols/cmp/keygen/round2.go, round4.go, round_output.go
      - protocols/cmp/sign/sign.go
    Natural numbers of [safenum] are integers of [Z] that are never negative;
    Go maps are [gmap]s keyed by party identifiers, which are Go strings.
    Collaborators that live outside these files (the curve, the hash
    transcript, the zero-knowledge proofs, the round helper) are the fields of
    type classes, so that every definition can be run on an instance. *)

From Stdlib Require Import ZArith Znumtheory Zcong Lia.
From Stdlib Require Import Zmod.ZmodInv.
From stdpp Require Import gmap strings list.

Local Open Scope Z_scope.

(** ** Errors and results *)

(** The sentinel errors of the packages, and [fmt.Errorf] with the verb [%w],
    which wraps one of them behind a formatted message. *)
Inductive error : Type :=
| ErrPrimeBadLength
| ErrNotBlum
| ErrNotSafePrime
| ErrInvalidCiphertext (* errors.New("paillier: failed to decrypt invalid ciphertext") *)
| ErrRound4ZKMod
| ErrRound4ZKPrm
| ErrRound4Decrypt
| ErrRound4VSS
| ErrRoundOutputZKSch
| ErrMessageNil        (* errors.New("sign.Create: message is nil") *)
| ErrNotSigningSubset  (* errors.New("sign.Create: signers is not a valid signing subset") *)
| ErrNew (msg : string)
| Errorf (msg : string) (args : list Z) (wrapped : error).

(** [errors.Is]: the chain of wrapped errors reaches the sentinel. *)
Fixpoint errorIs (e : error) (sentinel : error -> bool) : bool :=
  sentinel e ||
  match e with
  | Errorf _ _ w => errorIs w sentinel
  | _ => false
  end.

Definition isPrimeBadLength (e : error) : bool :=
  match e with ErrPrimeBadLength => true | _ => false end.

(** What a Go call does: it returns a value, returns a non-nil error, or
    panics (a nil pointer or a missing map entry that is dereferenced). *)
Inductive result (A : Type) : Type :=
| Ok (a : A)
| Err (e : error)
| Panic.
Arguments Ok {A} a.
Arguments Err {A} e.
Arguments Panic {A}.

#[global] Instance result_ret : MRet result := fun A a => Ok a.

#[global] Instance result_bind : MBind result := fun A B k r =>
  match r with
  | Ok a => k a
  | Err e => Err e
  | Panic => Panic
  end.

(** A map entry that the code dereferences without a check. *)
Definition deref {A : Type} (o : option A) : result A :=
  match o with
  | Some a => Ok a
  | None => Panic
  end.

(** ** safenum: the operations the sources call *)

Module Safenum.

(** [Nat.TrueLen]: the number of bits of the value, 0 for 0. *)
Definition TrueLen (x : Z) : Z :=
  if x =? 0 then 0 else Z.log2 x + 1.

(** The announced length of a number (what [cap = -1] takes the maximum
    of), taken as the true length rounded up to whole 64-bit limbs. *)
Definition AnnouncedLen (x : Z) : Z := 64 * ((TrueLen x + 63) / 64).

(** [Nat.Byte i]: the i-th byte, least significant first. *)
Definition Byte (x : Z) (i : Z) : Z := Z.land (Z.shiftr x (8 * i)) 255.

(** [z.Rsh(x, shift, -1)]. *)
Definition Rsh (x : Z) (shift : Z) : Z := Z.shiftr x shift.

(** [z.Mul(x, y, -1)]: the full product. *)
Definition Mul (x y : Z) : Z := x * y.

(** [z.Sub(x, y, -1)]: the difference modulo 2^cap, with cap the larger
    announced length: a natural number has no sign, so x < y wraps. *)
Definition Sub (x y : Z) : Z :=
  (x - y) mod 2 ^ Z.max (AnnouncedLen x) (AnnouncedLen y).

(** [z.Div(x, m, -1)]: the quotient, rounded down. *)
Definition Div (x m : Z) : Z := x / m.

(** [z.ModMul(x, y, m)]. *)
Definition ModMul (x y m : Z) : Z := (x * y) mod m.

(** [z.ModInverse(x, m)]: the inverse of x modulo m when there is one
    (a value without meaning otherwise). *)
Definition ModInverse (x m : Z) : Z := Z.invmod x m.

(** [z.ModNeg(x, m)]. *)
Definition ModNeg (x m : Z) : Z := (- x) mod m.

(** [safenum.Int]: a sign bit and an absolute value; there is a -0. *)
Record Int : Type := mkInt { sign : bool; abs : Z }.

Definition IntVal (z : Int) : Z := if sign z then - abs z else abs z.

(** [Int.Eq]: the same value; the two zeros are equal. *)
Definition IntEq (z x : Int) : bool :=
  ((abs z =? 0) || negb (xorb (sign z) (sign x))) && (abs z =? abs x).

(** [z.SetModSymmetric(x, m)]: x mod m and its negation mod m are compared
    and the smaller is kept, with a minus sign when it is the negation. *)
Definition SetModSymmetric (x m : Z) : Int :=
  let a := x mod m in
  let negated := ModNeg a m in
  let negatedLeq := negb (a <? negated) in
  mkInt negatedLeq (if negatedLeq then negated else a).

End Safenum.

(** ** internal/params *)

Module Params.
(** The bit length of each prime factor of a Paillier modulus. *)
Definition BitsBlumPrime : Z := 1024.
End Params.

(** ** math/big *)

(** [big.Int.ProbablyPrime(n)] of Go's standard library: the value tested
    and the number n of Miller-Rabin rounds with pseudo-random bases asked
    for. *)
Class BigInt : Type := {
  ProbablyPrime : Z -> Z -> bool
}.

(** ** pkg/paillier *)

Module Paillier.

(** The modulus in the form [modulus.FromFactors(p, q, e, f)] builds:
    p^e * q^f together with its factors. *)
Record CRTModulus : Type := FromFactors {
  crt_p : Z; crt_q : Z; crt_e : Z; crt_f : Z
}.

Definition crt_value (m : CRTModulus) : Z :=
  crt_p m ^ crt_e m * crt_q m ^ crt_f m.

(** Modelled from the spec: [modulus.Modulus.Exp] (pkg/math/modulus is not
    among the sources). "CRT exponentiation": the power x^e reduced modulo
    the modulus that the factors make; [Dec] notes its result as
    "r = c^Phi (mod N^2)". *)
Definition crt_Exp (m : CRTModulus) (x e : Z) : Z :=
  x ^ e mod crt_value m.

Record PublicKey : Type := mkPublicKey {
  n : Z;
  nSquared : Z;
  nSquaredCRT : option CRTModulus;
  nCRT : option CRTModulus
}.

(** [NewPublicKey(n)]: the public key of a modulus, with no factors. *)
Definition NewPublicKey (n : Z) : PublicKey :=
  mkPublicKey n (Safenum.Mul n n) None None.

Record SecretKey : Type := mkSecretKey {
  pk : PublicKey;
  p : Z;
  q : Z;
  phi : Z;
  phiInv : Z
}.

Record Ciphertext : Type := mkCiphertext { c : Z }.

Definition oneNat : Z := 1.

(** Modelled from the spec: [PublicKey.ValidateCiphertexts] (public.go is
    not among the sources). "A ciphertext is valid iff it lies in
    [1, N^2 - 1] and is coprime to N^2."; the comment of [Dec] says the
    same: "It returns an error if gcd(c, N^2) != 1 or if c is not in
    [1, N^2-1]." *)
Definition ValidateCiphertexts (pk : PublicKey) (ct : Ciphertext) : bool :=
  (1 <=? c ct) && (c ct <=? nSquared pk - 1) && (Z.gcd (c ct) (nSquared pk) =? 1).

Definition NewSecretKeyFromPrimes (P Q : Z) : SecretKey :=
  let nNat := Safenum.Mul P Q in
  let n := nNat in
  let pMinus1 := Safenum.Sub P oneNat in
  let qMinus1 := Safenum.Sub Q oneNat in
  let phi := Safenum.Mul pMinus1 qMinus1 in
  let phiInv := Safenum.ModInverse phi n in
  let pk := NewPublicKey n in
  let pk := mkPublicKey (Paillier.n pk) (nSquared pk)
              (Some (FromFactors P Q 2 2)) (nCRT pk) in
  let pk := mkPublicKey (Paillier.n pk) (nSquared pk)
              (nSquaredCRT pk) (Some (FromFactors P Q 1 1)) in
  mkSecretKey pk P Q phi phiInv.

Definition Dec (sk : SecretKey) (ct : Ciphertext) : result Safenum.Int :=
  let n := Paillier.n (pk sk) in
  if negb (ValidateCiphertexts (pk sk) ct) then Err ErrInvalidCiphertext
  else
    let phi := Paillier.phi sk in
    let phiInv := Paillier.phiInv sk in
    crt ← deref (nSquaredCRT (pk sk));
    let result := crt_Exp crt (c ct) phi in
    let result := Safenum.Sub result oneNat in
    let result := Safenum.Div result n in
    let result := Safenum.ModMul result phiInv n in
    Ok (Safenum.SetModSymmetric result n).

Definition bitsWant : Z := Params.BitsBlumPrime.

Definition ValidatePrime `{BigInt} (p : Z) : option error :=
  let bits := Safenum.TrueLen p in
  if negb (bits =? bitsWant) then
    Some (Errorf "invalid prime size: have: %d, need %d: %w"
                 [bits; bitsWant] ErrPrimeBadLength)
  else if negb (Z.land (Safenum.Byte p 0) 3 =? 3) then
    Some ErrNotBlum
  else
    let pMinus1Div2 := Safenum.Rsh p 1 in
    if negb (ProbablyPrime pMinus1Div2 1) then Some ErrNotSafePrime
    else None.

End Paillier.

(** ** pkg/party *)

(** [party.ID] is a Go string. *)
Abbreviation ID := string.

(** ** pkg/math/curve *)

(** The group of the signing curve, an interface in the sources: points with
    an identity, an addition and a multiplication by a scalar, the base point
    G, and the (decidable) equality [Point.Equal]. Scalars are the integers
    modulo the group's [order], kept reduced. The laws are those of a module
    over the integers, which the curve satisfies. *)
Class Curve : Type := {
  Point : Type;
  Point_eq_dec :: EqDecision Point;
  order : Z;
  NewIdentityPoint : Point;
  PointAdd : Point -> Point -> Point;
  ScalarMult : Z -> Point -> Point;
  BasePoint : Point;
  order_gt_1 : 1 < order;
  PointAdd_comm : forall P Q, PointAdd P Q = PointAdd Q P;
  PointAdd_assoc : forall P Q R, PointAdd P (PointAdd Q R) = PointAdd (PointAdd P Q) R;
  PointAdd_identity_l : forall P, PointAdd NewIdentityPoint P = P;
  ScalarMult_add_r : forall k P Q,
    ScalarMult k (PointAdd P Q) = PointAdd (ScalarMult k P) (ScalarMult k Q)
}.

Module Scalar.
Section WithCurve.
Context `{Curve}.

(** [curve.NewScalar()]: zero. *)
Definition NewScalar : Z := 0.

(** [z.Add(x, y)] and [z.Multiply(x, y)], in the scalar field. *)
Definition Add (x y : Z) : Z := (x + y) mod order.
Definition Multiply (x y : Z) : Z := (x * y) mod order.

(** [curve.NewScalarInt(i)]: the integer reduced into the scalar field. *)
Definition NewScalarInt (i : Safenum.Int) : Z := Safenum.IntVal i mod order.

(** [s.Int()]: the scalar as an integer, never negative. *)
Definition Int (s : Z) : Safenum.Int := Safenum.mkInt false s.

(** [p.ScalarBaseMult(s)]: s.G. *)
Definition ScalarBaseMult (s : Z) : Point := ScalarMult s BasePoint.
End WithCurve.
End Scalar.

(** ** pkg/math/polynomial *)

Module Polynomial.
Section WithCurve.
Context `{Curve}.

(** A polynomial "in the exponent": its coefficients are points,
    F(X) = A_0 + X.A_1 + ... + X^t.A_t. *)
Record Exponent : Type := mkExponent { coefficients : list Point }.

#[global] Instance Exponent_eq_dec : EqDecision Exponent.
Proof. solve_decision. Defined.

Fixpoint evaluateFrom (xPower x : Z) (cs : list Point) : Point :=
  match cs with
  | [] => NewIdentityPoint
  | A :: cs' =>
      PointAdd (ScalarMult xPower A)
               (evaluateFrom (Scalar.Multiply xPower x) x cs')
  end.

(** Modelled from the spec: [Exponent.Evaluate] (pkg/math/polynomial is not
    among the sources). "Coefficients in the group:
    F(X) = sum a_i . X^i . G": the sum of the coefficients, each scaled by
    the power of x of its index. *)
Definition Evaluate (F : Exponent) (x : Z) : Point :=
  evaluateFrom (1 mod order) x (coefficients F).

Fixpoint addCoefficients (ps qs : list Point) : list Point :=
  match ps, qs with
  | P :: ps', Q :: qs' => PointAdd P Q :: addCoefficients ps' qs'
  | _, _ => []
  end.

(** The sum of two polynomials, which must have as many coefficients. *)
Definition Add (F G : Exponent) : result Exponent :=
  if negb (length (coefficients F) =? length (coefficients G))%nat
  then Err (ErrNew "q is not the same length as p")
  else Ok (mkExponent (addCoefficients (coefficients F) (coefficients G))).

(** Modelled from the spec: [polynomial.Sum] (pkg/math/polynomial is not
    among the sources). "F(X) = sum_j F_j(X)": the polynomials are added
    coefficient by coefficient, starting from the first; the sources show
    only that it can return an error, taken here to be the case where
    there is nothing to add or the degrees differ. *)
Definition Sum (Fs : list Exponent) : result Exponent :=
  match Fs with
  | [] => Err (ErrNew "no polynomials to sum")
  | F :: rest => foldl (fun acc G => F' ← acc; Add F' G) (Ok F) rest
  end.

(** Modelled from the spec: [polynomial.Lagrange] (pkg/math/polynomial is
    not among the sources). "Lagrange coefficient lambda_j(0) over S":
    for the party with scalar x_j, the product over the other parties k
    of x_k / (x_k - x_j), in the scalar field. *)
Definition lagrangeCoefficient (xs : list Z) (xj : Z) : Z :=
  foldr (fun xk acc =>
           if xk =? xj then acc
           else Scalar.Multiply acc
                  (Scalar.Multiply xk (Z.invmod ((xk - xj) mod order) order)))
        (1 mod order) xs.

Definition Lagrange (IDScalar : ID -> Z) (interpolationDomain : list ID)
  : gmap ID Z :=
  let xs := IDScalar <$> interpolationDomain in
  list_to_map
    ((fun j => (j, lagrangeCoefficient xs (IDScalar j))) <$> interpolationDomain).
End WithCurve.
End Polynomial.

(** ** protocols/cmp/keygen: the data *)

Module Keygen.
Section WithCurve.
Context `{Curve}.

(** [Public]: the public data of one party; N, S and T are pointers. *)
Record Public : Type := mkPublic {
  pub_ECDSA : Point;
  pub_N : option Z;
  pub_S : option Z;
  pub_T : option Z
}.

Record Secret : Type := mkSecret {
  sec_ID : ID;
  sec_ECDSA : Z;
  sec_P : Z;
  sec_Q : Z
}.

Record Config : Type := mkConfig {
  cfg_Threshold : Z;
  cfg_Public : gmap ID Public;
  cfg_RID : list Byte.byte;
  cfg_ChainKey : list Byte.byte;
  cfg_Secret : Secret
}.

(** [Secret.Paillier()]: the Paillier key of the two stored primes. *)
Definition Config_Paillier (c : Config) : Paillier.SecretKey :=
  Paillier.NewSecretKeyFromPrimes (sec_P (cfg_Secret c)) (sec_Q (cfg_Secret c)).
End WithCurve.
End Keygen.

(** ** The collaborators of the rounds *)

(** The hash transcript, the zero-knowledge proofs of pkg/zk, and what the
    round helper does with a message. A proof is a Go pointer that can be
    nil, and so is the modulus, the Pedersen parameter or the commitment read
    from a map that has no entry for the sender: the verifiers receive them
    as options. *)
Class Collaborators `{Curve} : Type := {
  Hash : Type;
  ModProof : Type;
  PrmProof : Type;
  SchResponse : Type;
  SchCommitment : Type;
  SchRandomness : Type;
  (** [party.ID.Scalar()] *)
  IDScalar : ID -> Z;
  (** the helper's [HashForID(id)], from the hash state of the session *)
  HashForID : Hash -> ID -> Hash;
  (** [h.WriteAny(config, id)] *)
  WriteAny : Hash -> Keygen.Config -> ID -> Hash;
  (** the helper's [UpdateHashState(config)] *)
  UpdateHashState : Hash -> Keygen.Config -> Hash;
  (** [zkmod.Proof.Verify(hash, zkmod.Public{N})] *)
  zkmod_Verify : option ModProof -> Hash -> option Z -> bool;
  (** [zkprm.Proof.Verify(hash, zkprm.Public{N, S, T})] *)
  zkprm_Verify : option PrmProof -> Hash -> option Z -> option Z -> option Z -> bool;
  (** [zksch.Response.Verify(hash, public, commitment)] *)
  zksch_Verify : option SchResponse -> Hash -> Point -> option SchCommitment -> bool;
  (** [zksch.Randomness.Prove(hash, public, secret)] *)
  zksch_Prove : SchRandomness -> Hash -> Point -> Z -> option SchResponse;
  (** [zklogstar.Proof.Verify(hash, zklogstar.Public{C, X, Prover})], which
      the rounds of signing call; the rounds modelled here never do. *)
  LogStarProof : Type;
  zklogstar_Verify : option LogStarProof -> Hash ->
                     option Paillier.Ciphertext -> Point -> option Z -> bool
}.

Module Round4.
Section WithCollaborators.
Context `{Collaborators}.
Import Keygen Polynomial.

(** The content of a round-4 message. *)
Record Keygen4 : Type := mkKeygen4 {
  Mod : option ModProof;
  Prm : option PrmProof;
  Share : option Paillier.Ciphertext
}.

(** The content of the message of the output round. *)
Record KeygenOutput : Type := mkKeygenOutput {
  SchnorrResponse : option SchResponse
}.

(** A message on its way out: the sender, the receivers, the content. *)
Record Message : Type := mkMessage {
  msg_From : ID;
  msg_To : list ID;
  msg_Content : KeygenOutput
}.

(** What the rounds read of [round.Helper]. *)
Record Helper : Type := mkHelper {
  h_SelfID : ID;
  h_PartyIDs : list ID;
  h_Hash : Hash
}.

(** The parties other than this one, in the order of [PartyIDs]. *)
Definition OtherPartyIDs (h : Helper) : list ID :=
  filter (fun j => j ≠ h_SelfID h) (h_PartyIDs h).

(** [Helper.MarshalMessage(content, to...)] *)
Definition MarshalMessage (h : Helper) (content : KeygenOutput) (to : list ID)
  : Message :=
  mkMessage (h_SelfID h) to content.

(** [round4] with the fields of the rounds it embeds
    (round1: Threshold and the Previous fields; round2: the maps and the
    secrets; round3: SchnorrCommitments). *)
Record round4 : Type := mkRound4 {
  r_Helper : Helper;
  r_Threshold : Z;
  r_PreviousSecretECDSA : Z;
  r_PreviousPublicSharesECDSA : gmap ID Point;
  r_VSSPolynomials : gmap ID Exponent;
  r_ShareReceived : gmap ID Z;
  r_N : gmap ID Z;
  r_S : gmap ID Z;
  r_T : gmap ID Z;
  r_PaillierSecret : Paillier.SecretKey;
  r_SchnorrRand : SchRandomness;
  r_SchnorrCommitments : gmap ID SchCommitment;
  r_RID : list Byte.byte;
  r_ChainKey : list Byte.byte
}.

Definition set_ShareReceived (r : round4) (m : gmap ID Z) : round4 :=
  mkRound4 (r_Helper r) (r_Threshold r) (r_PreviousSecretECDSA r)
           (r_PreviousPublicSharesECDSA r) (r_VSSPolynomials r) m
           (r_N r) (r_S r) (r_T r) (r_PaillierSecret r) (r_SchnorrRand r)
           (r_SchnorrCommitments r) (r_RID r) (r_ChainKey r).

Definition set_Helper (r : round4) (h : Helper) : round4 :=
  mkRound4 h (r_Threshold r) (r_PreviousSecretECDSA r)
           (r_PreviousPublicSharesECDSA r) (r_VSSPolynomials r)
           (r_ShareReceived r)
           (r_N r) (r_S r) (r_T r) (r_PaillierSecret r) (r_SchnorrRand r)
           (r_SchnorrCommitments r) (r_RID r) (r_ChainKey r).

Definition VerifyMessage (r : round4) (from : ID) (body : Keygen4)
  : option error :=
  if negb (zkmod_Verify (Mod body) (HashForID (h_Hash (r_Helper r)) from)
                        (r_N r !! from))
  then Some ErrRound4ZKMod
  else if negb (zkprm_Verify (Prm body) (HashForID (h_Hash (r_Helper r)) from)
                             (r_N r !! from) (r_S r !! from) (r_T r !! from))
  then Some ErrRound4ZKPrm
  else None.

(** [PaillierSecret.Dec(body.Share)]; a nil ciphertext is not a valid
    one. *)
Definition DecShare (sk : Paillier.SecretKey) (share : option Paillier.Ciphertext)
  : result Safenum.Int :=
  match share with
  | Some ct => Paillier.Dec sk ct
  | None => Err ErrInvalidCiphertext
  end.

(** [StoreMessage]: the round after the call, and what the call
    returned. *)
Definition StoreMessage (r : round4) (from : ID) (body : Keygen4)
  : round4 * result unit :=
  match DecShare (r_PaillierSecret r) (Share body) with
  | Err err => (r, Err err)
  | Panic => (r, Panic)
  | Ok DecryptedShare =>
      let Share := Scalar.NewScalarInt DecryptedShare in
      if negb (Safenum.IntEq DecryptedShare (Scalar.Int Share))
      then (r, Err ErrRound4Decrypt)
      else
        match r_VSSPolynomials r !! from with
        | None => (r, Panic)
        | Some F =>
            let ExpectedPublicShare := Evaluate F (IDScalar (h_SelfID (r_Helper r))) in
            let PublicShare := Scalar.ScalarBaseMult Share in
            if negb (bool_decide (PublicShare = ExpectedPublicShare))
            then (r, Err ErrRound4VSS)
            else (set_ShareReceived r (<[from := Share]> (r_ShareReceived r)), Ok tt)
        end
  end.

(** [Keygen4.Validate], on a message that can be nil. *)
Definition Keygen4_Validate (m : option Keygen4) : option error :=
  match m with
  | None => Some (ErrNew "keygen.round4: message is nil")
  | Some m =>
      if bool_decide (Mod m = None :> option ModProof) then Some (ErrNew "keygen.round4: zkmod proof is nil")
      else if bool_decide (Prm m = None :> option PrmProof) then Some (ErrNew "keygen.round4: zkprm proof is nil")
      else if bool_decide (Share m = None :> option Paillier.Ciphertext) then Some (ErrNew "keygen.round4: Share proof is nil")
      else None
  end.

(** The helper's [SendMessage(msg, out)]: the message is put on the
    channel [out], or an error is returned and nothing is sent. *)
Class RoundHelper : Type := {
  SendMessage : Message -> list Message -> result (list Message)
}.
Context `{RoundHelper}.

(** The output round: round 4 and the configuration it built. *)
Record output : Type := mkOutput {
  o_round4 : round4;
  UpdatedConfig : Config
}.

(** [keygen.Result], the result of a session. *)
Record Result : Type := mkResult { res_Config : Config }.

(** One turn of the loop "add all shares to our secret", for the party j. *)
Definition addShare (r : round4) (acc : result Z) (j : ID) : result Z :=
  UpdatedSecretECDSA ← acc;
  share ← deref (r_ShareReceived r !! j);
  Ok (Scalar.Add UpdatedSecretECDSA share).

(** The new secret: the shares of the parties, added in turn. *)
Definition addShares (r : round4) : result Z :=
  foldl (addShare r) (Ok (r_PreviousSecretECDSA r)) (h_PartyIDs (r_Helper r)).

(** One turn of the loop "compute the new public key share", for the
    party j. *)
Definition addPublic (r : round4) (ShamirPublicPolynomial : Exponent)
    (acc : result (gmap ID Public)) (j : ID) : result (gmap ID Public) :=
  PublicData ← acc;
  previous ← deref (r_PreviousPublicSharesECDSA r !! j);
  let PublicECDSAShare := Evaluate ShamirPublicPolynomial (IDScalar j) in
  let PublicECDSAShare := PointAdd PublicECDSAShare previous in
  Ok (<[j := mkPublic PublicECDSAShare (r_N r !! j) (r_S r !! j) (r_T r !! j)]>
        PublicData).

(** The new public data of the parties, from F = sum of the F_j. *)
Definition buildPublicData (r : round4) (ShamirPublicPolynomial : Exponent)
  : result (gmap ID Public) :=
  foldl (addPublic r ShamirPublicPolynomial) (Ok ∅) (h_PartyIDs (r_Helper r)).

(** [Finalize]: the output round and the channel after the call, or the
    error. The polynomials are taken from the map in the order of
    [map_to_list]; Go ranges over the map in an order of its choice. *)
Definition Finalize (r : round4) (out : list Message)
  : result (output * list Message) :=
  UpdatedSecretECDSA ← addShares r;
  let ShamirPublicPolynomials := (map_to_list (r_VSSPolynomials r)).*2 in
  ShamirPublicPolynomial ← Sum ShamirPublicPolynomials;
  PublicData ← buildPublicData r ShamirPublicPolynomial;
  let SelfID := h_SelfID (r_Helper r) in
  let UpdatedConfig :=
    mkConfig (r_Threshold r mod 2 ^ 32) PublicData (r_RID r) (r_ChainKey r)
             (mkSecret SelfID UpdatedSecretECDSA
                       (Paillier.p (r_PaillierSecret r))
                       (Paillier.q (r_PaillierSecret r))) in
  let h := WriteAny (h_Hash (r_Helper r)) UpdatedConfig SelfID in
  selfPublic ← deref (PublicData !! SelfID);
  let proof := zksch_Prove (r_SchnorrRand r) h (pub_ECDSA selfPublic)
                           UpdatedSecretECDSA in
  let msg := MarshalMessage (r_Helper r) (mkKeygenOutput proof)
                            (OtherPartyIDs (r_Helper r)) in
  out' ← SendMessage msg out;
  let r' := set_Helper r (mkHelper SelfID (h_PartyIDs (r_Helper r))
                            (UpdateHashState (h_Hash (r_Helper r)) UpdatedConfig)) in
  Ok (mkOutput r' UpdatedConfig, out').

(** [output.VerifyMessage] *)
Definition output_VerifyMessage (r : output) (from to : ID) (body : KeygenOutput)
  : result unit :=
  public ← deref (cfg_Public (UpdatedConfig r) !! from);
  if negb (zksch_Verify (SchnorrResponse body)
                        (HashForID (h_Hash (r_Helper (o_round4 r))) from)
                        (pub_ECDSA public)
                        (r_SchnorrCommitments (o_round4 r) !! from))
  then Err ErrRoundOutputZKSch
  else Ok tt.

(** [output.StoreMessage] *)
Definition output_StoreMessage (r : output) (from : ID) (body : KeygenOutput)
  : output * result unit :=
  (r, Ok tt).

(** [output.Finalize]: the round [round.Output] that carries the result. *)
Definition output_Finalize (r : output) (out : list Message) : result Result :=
  Ok (mkResult (UpdatedConfig r)).

(** [KeygenOutput.Validate], on a message that can be nil. *)
Definition KeygenOutput_Validate (m : option KeygenOutput) : option error :=
  match m with
  | None => Some (ErrNew "keygen.output: message is nil")
  | Some m =>
      if bool_decide (SchnorrResponse m = None :> option SchResponse)
      then Some (ErrNew "keygen.output: sch proof is nil")
      else None
  end.
End WithCollaborators.
End Round4.

(** ** The round engine *)

Module Engine.

(** What a failed session reports. *)
Record SessionError : Type := mkSessionError {
  culprits : list ID;
  kind : error
}.

Inductive Outcome (R : Type) : Type :=
| Stored (r : R)
| Aborted (e : SessionError)
| Crashed.
Arguments Stored {R} r.
Arguments Aborted {R} e.
Arguments Crashed {R}.

Definition ofError (e : option error) : result unit :=
  match e with
  | Some e => Err e
  | None => Ok tt
  end.

(** Modelled from the spec: the intake of one message by the round engine
    (the handler of pkg/protocol is not among the sources). "each is
    parsed, dispatched to verify, then to store"; "Each error returned by
    verify/store is paired with the from party id. The session result is
    Ok(value) or Err({culprits, kind})"; "Errors from verify/store are not
    recovered locally; they terminate the session." *)
Definition handle {R C : Type}
    (verify : R -> ID -> C -> result unit)
    (store : R -> ID -> C -> R * result unit)
    (r : R) (from : ID) (content : C) : Outcome R :=
  match verify r from content with
  | Err e => Aborted (mkSessionError [from] e)
  | Panic => Crashed
  | Ok _ =>
      match store r from content with
      | (r', Ok _) => Stored r'
      | (_, Err e) => Aborted (mkSessionError [from] e)
      | (_, Panic) => Crashed
      end
  end.

End Engine.

(** ** pkg/pedersen *)

Module Pedersen.

(** [pedersen.Parameters]: N, s and t as the pointers they are given as, and
    the factors of N once [SetCRT] has stored them. *)
Record Parameters : Type := mkParameters {
  ped_N : option Z;
  ped_S : option Z;
  ped_T : option Z;
  ped_CRT : option Paillier.CRTModulus
}.

(** [pedersen.New(n, s, t)] *)
Definition New (n s t : option Z) : Parameters := mkParameters n s t None.

(** [p.SetCRT(crt)] *)
Definition SetCRT (p : Parameters) (crt : option Paillier.CRTModulus) : Parameters :=
  mkParameters (ped_N p) (ped_S p) (ped_T p) crt.

End Pedersen.

(** ** protocols/cmp/sign *)

Module Sign.
Section WithCollaborators.
Context `{Collaborators}.
Import Keygen.

Definition protocolSignID : string := "cmp/sign-3-round-echo".
Definition protocolSignRounds : Z := 5.

(** [hash.BytesWithDomain] *)
Record BytesWithDomain : Type := mkBytesWithDomain {
  TheDomain : string;
  Bytes : list Byte.byte
}.

(** What [StartSign] calls outside its file: [party.NewIDSlice], the
    methods [CanSign] and [Validate] of the configuration, and
    [round.NewHelper] with the protocol, the number of rounds, this party,
    the signers, and what is written to the hash of the session. *)
Class SignCollaborators : Type := {
  SignHelper : Type;
  NewIDSlice : list ID -> list ID;
  CanSign : Config -> list ID -> bool;
  Validate : Config -> option error;
  NewHelper : string -> Z -> ID -> list ID ->
              Config -> list ID -> BytesWithDomain -> result SignHelper
}.
Context `{SignCollaborators}.

(** The first round of signing, as [StartSign] fills it. *)
Record round1 : Type := mkRound1 {
  r1_Helper : SignHelper;
  r1_PublicKey : Point;
  r1_SecretECDSA : Z;
  r1_SecretPaillier : Paillier.SecretKey;
  r1_Paillier : gmap ID Paillier.PublicKey;
  r1_Pedersen : gmap ID Pedersen.Parameters;
  r1_ECDSA : gmap ID Point;
  r1_Message : list Byte.byte
}.

(** The maps and the key that the loop over the signers builds. *)
Record scaled : Type := mkScaled {
  sc_ECDSA : gmap ID Point;
  sc_Paillier : gmap ID Paillier.PublicKey;
  sc_Pedersen : gmap ID Pedersen.Parameters;
  sc_PublicKey : Point
}.

(** One turn of the loop "Scale public data", for the signer j. *)
Definition scaleSigner (config : Config) (lagrange : gmap ID Z)
    (acc : result scaled) (j : ID) : result scaled :=
  st ← acc;
  public ← deref (cfg_Public config !! j);
  lagrange_j ← deref (lagrange !! j);
  let ECDSA_j := ScalarMult lagrange_j (pub_ECDSA public) in
  n ← deref (pub_N public);
  Ok (mkScaled (<[j := ECDSA_j]> (sc_ECDSA st))
               (<[j := Paillier.NewPublicKey n]> (sc_Paillier st))
               (<[j := Pedersen.New (pub_N public) (pub_S public) (pub_T public)]>
                  (sc_Pedersen st))
               (PointAdd (sc_PublicKey st) ECDSA_j)).

(** The function that [StartSign] returns, applied: the first round and the
    helper, or the error. *)
Definition StartSign (config : Config) (signers : list ID)
    (message : list Byte.byte) : result (round1 * SignHelper) :=
  if (length message =? 0)%nat then Err ErrMessageNil
  else
    let signerIDs := NewIDSlice signers in
    if negb (CanSign config signerIDs) then Err ErrNotSigningSubset
    else
      match Validate config with
      | Some err => Err err
      | None =>
          let selfID := sec_ID (cfg_Secret config) in
          match NewHelper protocolSignID protocolSignRounds selfID signerIDs
                          config signerIDs
                          (mkBytesWithDomain "Signature Message" message) with
          | Err err => Err (Errorf "sign.Create: %w" [] err)
          | Panic => Panic
          | Ok helper =>
              let lagrange := Polynomial.Lagrange IDScalar signers in
              st ← foldl (scaleSigner config lagrange)
                         (Ok (mkScaled ∅ ∅ ∅ NewIdentityPoint)) signerIDs;
              lagrange_self ← deref (lagrange !! sec_ID (cfg_Secret config));
              let SecretECDSA :=
                Scalar.Multiply lagrange_self (sec_ECDSA (cfg_Secret config)) in
              let SecretPaillier := Config_Paillier config in
              let Paillier := <[selfID := Paillier.pk SecretPaillier]> (sc_Paillier st) in
              pedersen_self ← deref (sc_Pedersen st !! selfID);
              let Pedersen :=
                <[selfID := Pedersen.SetCRT pedersen_self
                              (Paillier.nCRT (Paillier.pk SecretPaillier))]>
                  (sc_Pedersen st) in
              Ok (mkRound1 helper (sc_PublicKey st) SecretECDSA
                           (Config_Paillier config) Paillier Pedersen
                           (sc_ECDSA st) message,
                  helper)
          end
      end.

End WithCollaborators.
End Sign.

(** ** protocols/cmp/keygen: round 2 *)

Module Round2.

(** What round 2 calls outside its file: the sentinel
    [round.ErrInvalidContent] and [hash.Commitment.Validate]. *)
Class Round2Collaborators : Type := {
  ErrInvalidContent : error;
  Commitment_Validate : list Byte.byte -> option error
}.

Section WithCollaborators.
Context `{Collaborators} `{Round2Collaborators}.

(** [message2]: the commitment V_i, a [hash.Commitment], which is a slice
    of bytes. *)
Record message2 : Type := mkMessage2 {
  Commitment : list Byte.byte
}.

(** [round.Content], as round 2 tells contents apart: a pointer to a
    [message2], which can be nil, or a content of another type. *)
Inductive Content : Type :=
| IsMessage2 (body : option message2)
| OtherContent.

(** What round 2 reads of [round.Message]. *)
Record Message : Type := mkMessage {
  From : ID;
  msg_Content : Content
}.

(** The fields that [round2] adds to [round1]. *)
Record round2 : Type := mkRound2 {
  VSSPolynomials : gmap ID Polynomial.Exponent;
  Commitments : gmap ID (list Byte.byte);
  RIDs : gmap ID (list Byte.byte);
  ChainKeys : gmap ID (list Byte.byte);
  ShareReceived : gmap ID Z;
  ElGamalPublic : gmap ID Point;
  PaillierPublic : gmap ID Paillier.PublicKey;
  N : gmap ID Z;
  S : gmap ID Z;
  T : gmap ID Z;
  ElGamalSecret : Z;
  PaillierSecret : Paillier.SecretKey;
  PedersenSecret : Z;
  SchnorrRand : SchRandomness;
  Decommitment : list Byte.byte
}.

Definition set_Commitments (r : round2) (m : gmap ID (list Byte.byte)) : round2 :=
  mkRound2 (VSSPolynomials r) m (RIDs r) (ChainKeys r) (ShareReceived r)
           (ElGamalPublic r) (PaillierPublic r) (N r) (S r) (T r)
           (ElGamalSecret r) (PaillierSecret r) (PedersenSecret r)
           (SchnorrRand r) (Decommitment r).

(** [round2.VerifyMessage]: the error, or [None] for nil. The content has
    to be a [message2] that is not nil, with a commitment that is valid. *)
Definition VerifyMessage (r : round2) (msg : Message) : option error :=
  match msg_Content msg with
  | IsMessage2 (Some body) =>
      match Commitment_Validate (Commitment body) with
      | Some err => Some err
      | None => None
      end
  | _ => Some ErrInvalidContent
  end.

(** [round2.StoreMessage]: the round after the call and what the call
    returns. The type assertion has no check, and panics on a content of
    another type; the commitment is read through the pointer, which panics
    when it is nil. *)
Definition StoreMessage (r : round2) (msg : Message) : round2 * result unit :=
  match msg_Content msg with
  | OtherContent => (r, Panic)
  | IsMessage2 None => (r, Panic)
  | IsMessage2 (Some body) =>
      (set_Commitments r (<[From msg := Commitment body]> (Commitments r)), Ok tt)
  end.

End WithCollaborators.
End Round2.

(** ** The vocabulary of the statements *)

(** [ValidatePrime] with the number of rounds asked of the primality test
    made a parameter, to state how many rounds the code asks for. *)
Definition ValidatePrimeRounds `{BigInt} (rounds : Z) (p : Z) : option error :=
  if negb (Safenum.TrueLen p =? Params.BitsBlumPrime) then
    Some (Errorf "invalid prime size: have: %d, need %d: %w"
                 [Safenum.TrueLen p; Params.BitsBlumPrime] ErrPrimeBadLength)
  else if negb (p mod 4 =? 3) then Some ErrNotBlum
  else if negb (ProbablyPrime ((p - 1) / 2) rounds) then Some ErrNotSafePrime
  else None.

(** [VerifyMessage] of round 4 as the engine calls it. *)
Definition verify4 `{Collaborators} (r : Round4.round4) (from : ID)
    (body : Round4.Keygen4) : result unit :=
  Engine.ofError (Round4.VerifyMessage r from body).

(** The sum of a list of points. *)
Definition sumPoints `{Curve} (Ps : list Point) : Point :=
  foldr PointAdd NewIdentityPoint Ps.

(** The shares received from the parties [ids], and their sum. *)
Definition sharesOf (shares : gmap ID Z) (ids : list ID) : list Z :=
  (fun j => default 0 (shares !! j)) <$> ids.

Definition sumShares (shares : gmap ID Z) (ids : list ID) : Z :=
  foldr Z.add 0 (sharesOf shares ids).

(** The public data that round 4 gives the party k, from the polynomial F. *)
Definition publicOf `{Collaborators} (r : Round4.round4)
    (F : Polynomial.Exponent) (k : ID) : option Keygen.Public :=
  previous ← Round4.r_PreviousPublicSharesECDSA r !! k;
  Some (Keygen.mkPublic
          (PointAdd (Polynomial.Evaluate F (IDScalar k)) previous)
          (Round4.r_N r !! k) (Round4.r_S r !! k) (Round4.r_T r !! k)).

(** The public share of the signer j scaled by its Lagrange coefficient
    (the identity when either is missing). *)
Definition scaledShare `{Curve} (config : Keygen.Config) (lagrange : gmap ID Z)
    (j : ID) : Point :=
  match Keygen.cfg_Public config !! j, lagrange !! j with
  | Some public, Some lagrange_j => ScalarMult lagrange_j (Keygen.pub_ECDSA public)
  | _, _ => NewIdentityPoint
  end.

(** The Pedersen parameters of the signer j, from its public data. *)
Definition pedersenOf `{Curve} (config : Keygen.Config) (j : ID)
  : option Pedersen.Parameters :=
  public ← Keygen.cfg_Public config !! j;
  Some (Pedersen.New (Keygen.pub_N public) (Keygen.pub_S public) (Keygen.pub_T public)).

(** The Paillier key that signing makes for the signer j: that of the
    modulus N_j of the configuration, without the factors. *)
Definition paillierOf `{Curve} (config : Keygen.Config) (j : ID)
  : option Paillier.PublicKey :=
  public ← Keygen.cfg_Public config !! j;
  n ← Keygen.pub_N public;
  Some (Paillier.NewPublicKey n).

(** Modelled from the spec: [PublicKey.EncWithNonce] (public.go is not among
    the sources). "encryption uses (1+N)^m . r^N mod N^2", with the message
    m in +-(N/2) taken modulo N. *)
Definition EncWithNonce (pk : Paillier.PublicKey) (m nonce : Z) : Paillier.Ciphertext :=
  Paillier.mkCiphertext
    (((1 + Paillier.n pk) ^ (m mod Paillier.n pk) * nonce ^ Paillier.n pk)
       mod Paillier.nSquared pk).

(** The value that [Dec] returns, when it returns one. *)
Definition decrypted (r : result Safenum.Int) : option Z :=
  match r with
  | Ok d => Some (Safenum.IntVal d)
  | _ => None
  end.

(** Two states of round 4 that differ at most in the shares received. *)
Definition sameButShares `{Collaborators} (r r' : Round4.round4) : Prop :=
  Round4.r_Helper r' = Round4.r_Helper r /\
  Round4.r_Threshold r' = Round4.r_Threshold r /\
  Round4.r_PreviousSecretECDSA r' = Round4.r_PreviousSecretECDSA r /\
  Round4.r_PreviousPublicSharesECDSA r' = Round4.r_PreviousPublicSharesECDSA r /\
  Round4.r_VSSPolynomials r' = Round4.r_VSSPolynomials r /\
  Round4.r_N r' = Round4.r_N r /\
  Round4.r_S r' = Round4.r_S r /\
  Round4.r_T r' = Round4.r_T r /\
  Round4.r_PaillierSecret r' = Round4.r_PaillierSecret r /\
  Round4.r_SchnorrRand r' = Round4.r_SchnorrRand r /\
  Round4.r_SchnorrCommitments r' = Round4.r_SchnorrCommitments r /\
  Round4.r_RID r' = Round4.r_RID r /\
  Round4.r_ChainKey r' = Round4.r_ChainKey r.

(** The shares received are consistent: each is a scalar, and each passes
    the check against the polynomial of its sender, s.G = F_j(self). *)
Definition sharesConsistent `{Collaborators} (r : Round4.round4) : Prop :=
  forall j s, Round4.r_ShareReceived r !! j = Some s ->
    0 <= s < order /\
    exists F, Round4.r_VSSPolynomials r !! j = Some F /\
              Scalar.ScalarBaseMult s
              = Polynomial.Evaluate F (IDScalar (Round4.h_SelfID (Round4.r_Helper r))).

(** ** Small instances, to run the definitions on *)

Module Toy.

(** The cyclic group of order 5. *)
Inductive Z5 : Type := P0 | P1 | P2 | P3 | P4.

#[global] Instance Z5_eq_dec : EqDecision Z5.
Proof. solve_decision. Defined.

Definition toZ (P : Z5) : Z :=
  match P with P0 => 0 | P1 => 1 | P2 => 2 | P3 => 3 | P4 => 4 end.

Definition ofZ (z : Z) : Z5 :=
  match z mod 5 with
  | 0 => P0 | 1 => P1 | 2 => P2 | 3 => P3 | _ => P4
  end.

Definition add5 (P Q : Z5) : Z5 := ofZ (toZ P + toZ Q).
Definition mul5 (k : Z) (P : Z5) : Z5 := ofZ (k * toZ P).

#[global] Program Instance curve : Curve := {|
  Point := Z5;
  order := 5;
  NewIdentityPoint := P0;
  PointAdd := add5;
  ScalarMult := mul5;
  BasePoint := P1
|}.
Next Obligation. lia. Qed.
Next Obligation. by intros [] []. Qed.
Next Obligation. by intros [] [] []. Qed.
Next Obligation. by intros []. Qed.
Next Obligation.
  intros k P Q. unfold mul5, add5.
  assert (HtoZ : forall z, toZ (ofZ z) = z mod 5).
  { intros z. unfold ofZ. pose proof (Z.mod_pos_bound z 5 eq_refl) as Hb.
    destruct (z mod 5) as [|[[[]|[]|]|[[]|[]|]|]|]; simpl; lia. }
  assert (Hcongr : forall a b, a mod 5 = b mod 5 -> ofZ a = ofZ b).
  { intros a b Hab. unfold ofZ. by rewrite Hab. }
  rewrite !HtoZ. apply Hcongr.
  rewrite Z.mul_mod_idemp_r by lia.
  rewrite <- Z.add_mod by lia. f_equal. lia.
Qed.

(** Primality tests: one that calls every number probably prime, one that
    calls none, one that says yes only when asked for 40 rounds or more, and
    one that says yes only when asked for one round. *)
Definition alwaysPrime : BigInt := {| ProbablyPrime := fun _ _ => true |}.
Definition neverPrime : BigInt := {| ProbablyPrime := fun _ _ => false |}.
Definition primeFrom40 : BigInt := {| ProbablyPrime := fun _ n => 40 <=? n |}.
Definition primeAtOne : BigInt := {| ProbablyPrime := fun _ n => n =? 1 |}.

(** A number of 1024 bits that is 3 modulo 4. *)
Definition p1024 : Z := 2 ^ 1023 + 3.

(** Proofs that are valid when they are [true]; a hash that records the
    parties it was forked for; party "a" has scalar 1, "b" has 2, every
    other party 3. A logstar proof never verifies. *)
#[global] Instance collaborators : Collaborators := {|
  Hash := list ID;
  ModProof := bool;
  PrmProof := bool;
  SchResponse := bool;
  SchCommitment := unit;
  SchRandomness := unit;
  IDScalar := fun j => if String.eqb j "a" then 1 else if String.eqb j "b" then 2 else 3;
  HashForID := fun h j => j :: h;
  WriteAny := fun h _ j => j :: h;
  UpdateHashState := fun h _ => h;
  zkmod_Verify := fun p _ _ => bool_decide (p = Some true);
  zkprm_Verify := fun p _ _ _ _ => bool_decide (p = Some true);
  zksch_Verify := fun p _ _ _ => bool_decide (p = Some true);
  zksch_Prove := fun _ _ _ _ => Some true;
  LogStarProof := bool;
  zklogstar_Verify := fun _ _ _ _ _ => false
|}.

(** A channel that takes every message. *)
#[global] Instance roundHelper : Round4.RoundHelper := {|
  Round4.SendMessage := fun msg out => Ok (out ++ [msg])
|}.

(** The signers are given in order; a set of signers can sign when each
    has public data in the configuration and this party is one of them. *)
#[global] Instance signCollaborators : Sign.SignCollaborators := {|
  Sign.SignHelper := list ID;
  Sign.NewIDSlice := fun signers => signers;
  Sign.CanSign := fun config signers =>
    forallb (fun j => bool_decide (is_Some (Keygen.cfg_Public config !! j))) signers
    && bool_decide (Keygen.sec_ID (Keygen.cfg_Secret config) ∈ signers);
  Sign.Validate := fun _ => None;
  Sign.NewHelper := fun _ _ _ signers _ _ _ => Ok signers
|}.

(** Commitments are valid when they are not empty. *)
#[global] Instance round2Collaborators : Round2.Round2Collaborators := {|
  Round2.ErrInvalidContent := ErrNew "invalid content";
  Round2.Commitment_Validate := fun c =>
    match c with
    | [] => Some (ErrNew "empty commitment")
    | _ => None
    end
|}.

(** The Paillier key of the safe primes 7 and 11. *)
Definition sk77 : Paillier.SecretKey := Paillier.NewSecretKeyFromPrimes 7 11.

(** Round 4 of a key generation between "a" (this party) and "b", with
    f_a(X) = 1 + 2X and f_b(X) = 3 + X: "a" holds its own share f_a(1) = 3
    and waits for the share f_b(1) = 4 of "b". *)
Definition Fa : Polynomial.Exponent := Polynomial.mkExponent [P1; P2].
Definition Fb : Polynomial.Exponent := Polynomial.mkExponent [P3; P1].

Definition r4 : Round4.round4 :=
  Round4.mkRound4
    (Round4.mkHelper "a" ["a"; "b"] [])
    1 0
    {[ "a" := P0; "b" := P0 ]}
    {[ "a" := Fa; "b" := Fb ]}
    {[ "a" := 3 ]}
    {[ "a" := 77; "b" := 161 ]}
    {[ "a" := 4; "b" := 9 ]}
    {[ "a" := 16; "b" := 25 ]}
    sk77 tt
    {[ "a" := tt; "b" := tt ]}
    [] [].

(** Messages of "b": the share 4 encrypted with the randomness 2; the
    integer 9, which is not a scalar; the share 2, which is not f_b(1); a
    message whose mod proof does not verify. *)
Definition msgGood : Round4.Keygen4 :=
  Round4.mkKeygen4 (Some true) (Some true) (Some (Paillier.mkCiphertext 3406)).
Definition msgOverflow : Round4.Keygen4 :=
  Round4.mkKeygen4 (Some true) (Some true) (Some (Paillier.mkCiphertext 694)).
Definition msgWrongShare : Round4.Keygen4 :=
  Round4.mkKeygen4 (Some true) (Some true) (Some (Paillier.mkCiphertext 155)).
Definition msgBadMod : Round4.Keygen4 :=
  Round4.mkKeygen4 (Some false) (Some true) (Some (Paillier.mkCiphertext 3406)).

(** The message of "a" to itself: its share 3 = f_a(1), encrypted with the
    randomness 1. *)
Definition msgFromA : Round4.Keygen4 :=
  Round4.mkKeygen4 (Some true) (Some true) (Some (Paillier.mkCiphertext 232)).

(** Round 4 once the share of "b" is stored. *)
Definition r4full : Round4.round4 :=
  Round4.set_ShareReceived r4 {[ "a" := 3; "b" := 4 ]}.

(** The public data that "a" ends with: f = f_a + f_b = 4 + 3X, so that the
    share of "a" is f(1) = 2 and the public shares are 2.G and f(2).G = 0. *)
Definition pubA : Keygen.Public := Keygen.mkPublic P2 (Some 77) (Some 4) (Some 16).
Definition pubB : Keygen.Public := Keygen.mkPublic P0 (Some 161) (Some 9) (Some 25).

(** The configuration that "a" ends with. *)
Definition cfg : Keygen.Config :=
  Keygen.mkConfig 1
    {[ "a" := pubA; "b" := pubB ]}
    [] []
    (Keygen.mkSecret "a" 2 7 11).

(** The output round of "a". *)
Definition outputRound : Round4.output := Round4.mkOutput r4full cfg.

(** The Schnorr response that "a" sends, and one that does not verify. *)
Definition goodResponse : Round4.KeygenOutput := Round4.mkKeygenOutput (Some true).
Definition badResponse : Round4.KeygenOutput := Round4.mkKeygenOutput (Some false).

(** Round 2 of "a" before any commitment is stored, and two messages of
    "b", with the commitments 01 and 02. *)
Definition r2 : Round2.round2 :=
  Round2.mkRound2 {[ "a" := Fa ]} ∅ ∅ ∅ {[ "a" := 3 ]} ∅ ∅
                  {[ "a" := 77 ]} {[ "a" := 4 ]} {[ "a" := 16 ]}
                  0 sk77 0 tt [].
Definition commit1 : Round2.Message :=
  Round2.mkMessage "b" (Round2.IsMessage2 (Some (Round2.mkMessage2 [Byte.x01]))).
Definition commit2 : Round2.Message :=
  Round2.mkMessage "b" (Round2.IsMessage2 (Some (Round2.mkMessage2 [Byte.x02]))).

(** The helper of a session of signing between "a" and "b". *)
Definition helperAB : Sign.SignHelper := ["a"; "b"].

(** A message to sign: the two bytes "hi". *)
Definition hi : list Byte.byte := [Byte.x68; Byte.x69].

End Toy.

(** * Verification *)

(** ** safenum *)

Section SafenumFacts.
Import Safenum.

Lemma TrueLen_bound x : 0 <= x -> x < 2 ^ TrueLen x.
Proof.
  intros Hx. unfold TrueLen. destruct (Z.eqb_spec x 0) as [->|Hne]; [done|].
  apply Z.log2_spec. lia.
Qed.

Lemma TrueLen_nonneg x : 0 <= TrueLen x.
Proof.
  unfold TrueLen. destruct (x =? 0); [done|].
  pose proof (Z.log2_nonneg x). lia.
Qed.

Lemma TrueLen_le_AnnouncedLen x : TrueLen x <= AnnouncedLen x.
Proof.
  unfold AnnouncedLen.
  pose proof (Z.mod_pos_bound (TrueLen x + 63) 64 eq_refl).
  pose proof (Z.div_mod (TrueLen x + 63) 64 ltac:(lia)). lia.
Qed.

Lemma AnnouncedLen_bound x : 0 <= x -> x < 2 ^ AnnouncedLen x.
Proof.
  intros Hx. eapply Z.lt_le_trans; [by apply TrueLen_bound|].
  apply Z.pow_le_mono_r; [lia|apply TrueLen_le_AnnouncedLen].
Qed.

(** A subtraction that does not go below zero is the subtraction of the
    integers: nothing wraps. *)
Lemma Sub_no_wrap x y : 0 <= y <= x -> Sub x y = x - y.
Proof.
  intros Hxy. unfold Sub. apply Z.mod_small. split; [lia|].
  pose proof (AnnouncedLen_bound x ltac:(lia)) as Hb.
  assert (2 ^ AnnouncedLen x <= 2 ^ Z.max (AnnouncedLen x) (AnnouncedLen y))
    by (apply Z.pow_le_mono_r; lia).
  lia.
Qed.

Lemma TrueLen_spec x n : 1 < n -> TrueLen x = n <-> 2 ^ (n - 1) <= x < 2 ^ n.
Proof.
  intros Hn. unfold TrueLen. destruct (Z.eqb_spec x 0) as [->|Hne].
  - split; [lia|]. intros [Hl _].
    pose proof (Z.pow_pos_nonneg 2 (n - 1) eq_refl ltac:(lia)). lia.
  - split.
    + intros <-. destruct (Z.le_gt_cases x 0) as [Hle|Hpos].
      * rewrite Z.log2_nonpos in Hn by done. lia.
      * replace (Z.log2 x + 1 - 1) with (Z.log2 x) by lia.
        apply Z.log2_spec. lia.
    + intros Hb.
      assert (Hx : 0 < x).
      { pose proof (Z.pow_pos_nonneg 2 (n - 1) eq_refl ltac:(lia)). lia. }
      assert (Z.log2 x = n - 1); [|lia].
      apply Z.log2_unique; [lia|]. by replace (Z.succ (n - 1)) with n by lia.
Qed.

(** The two low bits of the low byte are the number modulo 4. *)
Lemma Byte0_low_bits x : Z.land (Byte x 0) 3 = x mod 4.
Proof.
  unfold Byte. rewrite Z.shiftr_0_r, <- Z.land_assoc.
  change (Z.land 255 3) with (Z.ones 2). by rewrite Z.land_ones.
Qed.

Lemma Rsh1_odd x : x mod 4 = 3 -> Rsh x 1 = (x - 1) / 2.
Proof.
  intros Hx. unfold Rsh. rewrite Z.shiftr_div_pow2 by lia.
  change (2 ^ 1) with 2.
  pose proof (Z.div_mod x 4 ltac:(lia)) as Hd. rewrite Hx in Hd.
  rewrite Hd at 1 2.
  replace (4 * (x / 4) + 3) with (1 + (2 * (x / 4) + 1) * 2) by lia.
  replace (1 + (2 * (x / 4) + 1) * 2 - 1) with ((2 * (x / 4) + 1) * 2) by lia.
  rewrite Z.div_add by lia. rewrite Z.div_mul by lia. reflexivity.
Qed.

Lemma SetModSymmetric_abs_nonneg x m : 0 < m -> 0 <= abs (SetModSymmetric x m).
Proof.
  intros Hm. unfold SetModSymmetric, ModNeg. simpl.
  pose proof (Z.mod_pos_bound x m Hm).
  pose proof (Z.mod_pos_bound (- (x mod m)) m Hm).
  destruct (negb _); lia.
Qed.

(** The value of [SetModSymmetric x m] is congruent to x and lies between
    -(m/2) and (m-1)/2. *)
Lemma SetModSymmetric_spec x m :
  0 < m ->
  IntVal (SetModSymmetric x m) mod m = x mod m /\
  - (m / 2) <= IntVal (SetModSymmetric x m) <= (m - 1) / 2.
Proof.
  intros Hm. unfold SetModSymmetric, ModNeg, IntVal. simpl.
  pose proof (Z.mod_pos_bound x m Hm) as Ha.
  set (a := x mod m) in *.
  assert (Hneg : (- a) mod m = if a =? 0 then 0 else m - a).
  { destruct (Z.eqb_spec a 0) as [->|Hne]; [by rewrite Z.mod_0_l by lia|].
    rewrite <- (Z.mod_small (m - a) m) by lia.
    replace (m - a) with (- a + 1 * m) by lia. by rewrite Z.mod_add by lia. }
  rewrite Hneg.
  pose proof (Z.div_mod m 2 ltac:(lia)) as Hm2.
  pose proof (Z.mod_pos_bound m 2 eq_refl) as Hm2b.
  pose proof (Z.div_mod (m - 1) 2 ltac:(lia)) as Hm1.
  pose proof (Z.mod_pos_bound (m - 1) 2 eq_refl) as Hm1b.
  destruct (Z.eqb_spec a 0) as [Ha0|Ha0].
  - rewrite Ha0. simpl. rewrite Z.mod_0_l by lia. lia.
  - destruct (Z.ltb_spec a (m - a)) as [Hlt|Hge]; simpl.
    + split; [subst a; by rewrite Z.mod_mod by lia|]. lia.
    + split; [|lia].
      replace (- (m - a)) with (a + (-1) * m) by lia.
      rewrite Z.mod_add by lia. subst a. by rewrite Z.mod_mod by lia.
Qed.

(** [Int.Eq] on integers with absolute values that are not negative is the
    equality of the values. *)
Lemma IntEq_spec z x :
  0 <= abs z -> 0 <= abs x -> IntEq z x = true <-> IntVal z = IntVal x.
Proof.
  intros Hz Hx. unfold IntEq, IntVal.
  destruct z as [sz az], x as [sx ax]; simpl in *.
  rewrite andb_true_iff, orb_true_iff, Z.eqb_eq, negb_true_iff, Z.eqb_eq.
  destruct sz, sx; simpl; split; intros; try lia;
    by (split; [first [left; lia | by right]|lia]).
Qed.

End SafenumFacts.

(** ** Paillier: decryption *)

Section PaillierFacts.
Import Safenum Paillier.

Lemma NewSecretKeyFromPrimes_fields P Q :
  0 < P -> 0 < Q ->
  let sk := NewSecretKeyFromPrimes P Q in
  n (pk sk) = P * Q /\
  nSquared (pk sk) = (P * Q) * (P * Q) /\
  nSquaredCRT (pk sk) = Some (FromFactors P Q 2 2) /\
  p sk = P /\ q sk = Q /\
  phi sk = (P - 1) * (Q - 1) /\
  phiInv sk = Z.invmod ((P - 1) * (Q - 1)) (P * Q).
Proof.
  intros HP HQ. unfold NewSecretKeyFromPrimes, NewPublicKey, Mul, ModInverse, oneNat.
  simpl. rewrite !Sub_no_wrap by lia. done.
Qed.

Lemma crt_value_squares P Q : crt_value (FromFactors P Q 2 2) = (P * Q) * (P * Q).
Proof. unfold crt_value. simpl crt_p. simpl crt_q. simpl crt_e. simpl crt_f. lia. Qed.

(** A power of a unit modulo M is not 0 modulo M. *)
Lemma pow_unit_mod_pos x e M :
  1 < M -> 0 <= e -> Z.gcd x M = 1 -> 1 <= x ^ e mod M < M.
Proof.
  intros HM He Hg.
  pose proof (Z.mod_pos_bound (x ^ e) M ltac:(lia)) as Hb.
  assert (x ^ e mod M <> 0); [|lia].
  intros H0. apply Z.mod_divide in H0; [|lia].
  assert (Hc : Z.coprime (x ^ e) M) by (by apply Z.coprime_pow_l).
  assert (HMM : (M | M)) by apply Z.divide_refl.
  pose proof (Z.gcd_greatest _ _ _ H0 HMM) as Hd.
  rewrite Hc in Hd. apply Z.divide_1_r_nonneg in Hd; lia.
Qed.

Lemma ValidateCiphertexts_spec pk ct :
  ValidateCiphertexts pk ct = true <->
  1 <= c ct <= nSquared pk - 1 /\ Z.gcd (c ct) (nSquared pk) = 1.
Proof.
  unfold ValidateCiphertexts.
  rewrite !andb_true_iff, !Z.leb_le, Z.eqb_eq. tauto.
Qed.

(** What [Dec] returns for a key made of P and Q, as a function of the
    validity of the ciphertext. *)
Lemma Dec_unfold P Q ct :
  0 < P -> 0 < Q ->
  let N := P * Q in
  Dec (NewSecretKeyFromPrimes P Q) ct =
  if ValidateCiphertexts (pk (NewSecretKeyFromPrimes P Q)) ct
  then Ok (SetModSymmetric
             (ModMul (Div (Sub (c ct ^ ((P - 1) * (Q - 1)) mod (N * N)) 1) N)
                     (Z.invmod ((P - 1) * (Q - 1)) N) N) N)
  else Err ErrInvalidCiphertext.
Proof.
  intros HP HQ N.
  destruct (NewSecretKeyFromPrimes_fields P Q HP HQ) as (Hn & Hn2 & Hcrt & _ & _ & Hphi & Hinv).
  unfold Dec. rewrite Hcrt, Hn, Hphi, Hinv.
  destruct (ValidateCiphertexts _ ct); [|done].
  cbn [negb deref mbind result_bind]. unfold crt_Exp.
  by rewrite crt_value_squares.
Qed.

End PaillierFacts.

Section PaillierDec.
Import Safenum Paillier.

(** X1: What [Dec] does with a valid ciphertext: for a key made of P and Q and
    a ciphertext c with 1 <= c <= N^2 - 1 that is coprime to N^2 (N = P.Q),
    [Dec] succeeds; what it returns is the integer
    ((c^phi mod N^2 - 1) / N) . phi^-1 mod N, with phi = (P-1)(Q-1), brought
    into a symmetric range: it is congruent to that integer modulo N and
    lies in [-(N/2), (N-1)/2], which is +-(N-1)/2 when N is odd; the
    inverse of phi is one when phi is coprime to N. *)
Theorem Dec_valid_ciphertext (P Q : Z) (ct : Ciphertext) :
  0 < P -> 0 < Q ->
  let N := P * Q in
  let phi := (P - 1) * (Q - 1) in
  1 <= c ct <= N * N - 1 -> Z.gcd (c ct) (N * N) = 1 ->
  let m := (((c ct ^ phi mod (N * N) - 1) / N) * Z.invmod phi N) mod N in
  exists d : Int,
    Dec (NewSecretKeyFromPrimes P Q) ct = Ok d /\
    d = SetModSymmetric m N /\
    IntVal d mod N = m /\
    - (N / 2) <= IntVal d <= (N - 1) / 2 /\
    (Z.odd N = true -> Z.abs (IntVal d) <= (N - 1) / 2) /\
    (Z.gcd phi N = 1 -> (Z.invmod phi N * phi) mod N = 1).
Proof.
  intros HP HQ N phi Hrange Hgcd m.
  assert (HN : 1 < N).
  { assert (0 < N) by (unfold N; lia). nia. }
  destruct (NewSecretKeyFromPrimes_fields P Q HP HQ) as (_ & Hn2 & _).
  rewrite Dec_unfold by done.
  replace (ValidateCiphertexts _ ct) with true; cycle 1.
  { symmetry. apply ValidateCiphertexts_spec. by rewrite Hn2. }
  fold N phi.
  assert (Hpow : 1 <= c ct ^ phi mod (N * N) < N * N).
  { apply pow_unit_mod_pos; [nia|unfold phi; nia|done]. }
  rewrite Sub_no_wrap by lia. unfold Div, ModMul. fold m.
  destruct (SetModSymmetric_spec m N ltac:(lia)) as [Hcong Hbounds].
  eexists; split; [reflexivity|]. split; [done|].
  split; [rewrite Hcong; unfold m; by rewrite Z.mod_mod by lia|].
  split; [done|]. split.
  - intros Hodd.
    assert (N / 2 = (N - 1) / 2); [|lia].
    pose proof (Zmod_odd N) as Hm. rewrite Hodd in Hm.
    pose proof (Z.div_mod N 2 ltac:(lia)) as Hd. rewrite Hm in Hd.
    rewrite Hd at 2. replace (2 * (N / 2) + 1 - 1) with (N / 2 * 2) by lia.
    by rewrite Z.div_mul by lia.
  - intros Hco. by apply Z.invmod_coprime; [lia|].
Qed.

(** A key and a valid ciphertext: the safe primes 7 and 11, and an
    encryption of 38 = (77 - 1) / 2. *)
Lemma Dec_valid_ciphertext_witness :
  exists d : Int,
    Dec (NewSecretKeyFromPrimes 7 11) (mkCiphertext 2927) = Ok d /\
    IntVal d = 38.
Proof.
  destruct (Dec_valid_ciphertext 7 11 (mkCiphertext 2927)) as (d & Hd & Heq & _);
    [lia|lia|simpl; lia|reflexivity|].
  exists d. split; [exact Hd|]. rewrite Heq. vm_compute. reflexivity.
Defined.

(** C1, where [Dec] and its own comment part: the comment of [Dec] says that
    it "returns the plaintext m in +- (N-2)/2", and so does the claim; with
    the safe primes 7 and 11 (N = 77), the valid ciphertext 2927 decrypts to
    38 = (N-1)/2, which is outside that range (twice 38 is more than
    N - 2). *)
Lemma Dec_range_counterexample :
  ValidateCiphertexts (pk (NewSecretKeyFromPrimes 7 11)) (mkCiphertext 2927) = true /\
  Dec (NewSecretKeyFromPrimes 7 11) (mkCiphertext 2927) = Ok (mkInt false 38) /\
  ~ (forall d, Dec (NewSecretKeyFromPrimes 7 11) (mkCiphertext 2927) = Ok d ->
               2 * Z.abs (IntVal d) <= 7 * 11 - 2).
Proof.
  assert (H : Dec (NewSecretKeyFromPrimes 7 11) (mkCiphertext 2927)
              = Ok (mkInt false 38)) by (vm_compute; reflexivity).
  split; [vm_compute; reflexivity|]. split; [exact H|].
  intros Hall. specialize (Hall _ H). vm_compute in Hall.
  apply Hall. reflexivity.
Qed.

(** C2: [Dec] returns an error exactly when the ciphertext is not in
    [1, N^2 - 1] or not coprime to N^2; the error is the invalid-ciphertext
    one; the ciphertexts 0 and N^2 are refused. *)
Theorem Dec_error_iff_invalid (P Q : positive) (ct : Ciphertext) :
  let sk := NewSecretKeyFromPrimes (Z.pos P) (Z.pos Q) in
  let N2 := (Z.pos P * Z.pos Q) * (Z.pos P * Z.pos Q) in
  ((exists e, Dec sk ct = Err e) <->
     ~ (1 <= c ct <= N2 - 1 /\ Z.gcd (c ct) N2 = 1)) /\
  (forall e, Dec sk ct = Err e -> e = ErrInvalidCiphertext) /\
  Dec sk (mkCiphertext 0) = Err ErrInvalidCiphertext /\
  Dec sk (mkCiphertext N2) = Err ErrInvalidCiphertext.
Proof.
  intros sk N2.
  assert (HP : 0 < Z.pos P) by lia. assert (HQ : 0 < Z.pos Q) by lia.
  destruct (NewSecretKeyFromPrimes_fields _ _ HP HQ) as (_ & Hn2 & _).
  assert (Hu : forall ct', Dec sk ct' =
            if ValidateCiphertexts (pk sk) ct'
            then Dec sk ct' else Err ErrInvalidCiphertext).
  { intros ct'. unfold sk. rewrite Dec_unfold by done.
    by destruct (ValidateCiphertexts _ ct'). }
  assert (Hok : forall ct', ValidateCiphertexts (pk sk) ct' = true ->
            exists d, Dec sk ct' = Ok d).
  { intros ct' Hv. unfold sk in *. rewrite Dec_unfold, Hv by done. eauto. }
  assert (Hbad : forall ct', ValidateCiphertexts (pk sk) ct' = false ->
            Dec sk ct' = Err ErrInvalidCiphertext).
  { intros ct' Hv. by rewrite Hu, Hv. }
  assert (Hspec : forall ct', ValidateCiphertexts (pk sk) ct' = true <->
            1 <= c ct' <= N2 - 1 /\ Z.gcd (c ct') N2 = 1).
  { intros ct'. rewrite ValidateCiphertexts_spec. unfold sk. by rewrite Hn2. }
  split; [|split; [|split]].
  - split.
    + intros [e He] Hv. apply Hspec, Hok in Hv as [d Hd]. congruence.
    + intros Hv. exists ErrInvalidCiphertext. apply Hbad.
      destruct (ValidateCiphertexts (pk sk) ct) eqn:E; [|done].
      by apply Hspec in E.
  - intros e He.
    destruct (ValidateCiphertexts (pk sk) ct) eqn:E.
    + apply Hok in E as [d Hd]. congruence.
    + apply Hbad in E. congruence.
  - apply Hbad. apply not_true_is_false. rewrite Hspec. simpl. lia.
  - apply Hbad. apply not_true_is_false. rewrite Hspec. simpl c. lia.
Qed.

End PaillierDec.

(** ** Paillier: the check of a prime factor *)

Section PaillierValidatePrime.
Import Safenum Paillier.

Lemma ValidatePrime_unfold `{BigInt} p :
  ValidatePrime p = ValidatePrimeRounds 1 p.
Proof.
  unfold ValidatePrime, ValidatePrimeRounds, bitsWant.
  destruct (TrueLen p =? Params.BitsBlumPrime); [|done]. cbn [negb].
  rewrite Byte0_low_bits.
  destruct (Z.eqb_spec (p mod 4) 3) as [H3|H3]; [|done]. cbn [negb].
  by rewrite Rsh1_odd.
Qed.

(** C3: [ValidatePrime p] returns nil exactly when p has 1024 bits
    (BitsBlumPrime), is 3 modulo 4, and (p-1)/2 passes the primality test;
    a wrong length gives an error that wraps ErrPrimeBadLength; with the
    right length, a wrong residue gives ErrNotBlum; with both right, a
    failed test gives ErrNotSafePrime. *)
Theorem ValidatePrime_spec `{BigInt} (p : Z) :
  Params.BitsBlumPrime = 1024 /\
  (ValidatePrime p = None <->
     TrueLen p = Params.BitsBlumPrime /\ p mod 4 = 3 /\
     ProbablyPrime ((p - 1) / 2) 1 = true) /\
  (TrueLen p = Params.BitsBlumPrime <-> 2 ^ 1023 <= p < 2 ^ 1024) /\
  (TrueLen p <> Params.BitsBlumPrime ->
     exists e, ValidatePrime p = Some e /\ errorIs e isPrimeBadLength = true) /\
  (TrueLen p = Params.BitsBlumPrime -> p mod 4 <> 3 ->
     ValidatePrime p = Some ErrNotBlum) /\
  (TrueLen p = Params.BitsBlumPrime -> p mod 4 = 3 ->
     ProbablyPrime ((p - 1) / 2) 1 = false ->
     ValidatePrime p = Some ErrNotSafePrime).
Proof.
  assert (Hbits : TrueLen p = Params.BitsBlumPrime <-> 2 ^ 1023 <= p < 2 ^ 1024).
  { unfold Params.BitsBlumPrime. rewrite (TrueLen_spec p 1024) by lia.
    change (1024 - 1) with 1023. reflexivity. }
  rewrite ValidatePrime_unfold. unfold ValidatePrimeRounds.
  split; [reflexivity|].
  split; [|split; [exact Hbits|]]; clear Hbits.
  - destruct (Z.eqb_spec (TrueLen p) Params.BitsBlumPrime) as [Hlen|Hlen];
      cbn [negb]; [|split; [done|by intros (? & _)]].
    destruct (Z.eqb_spec (p mod 4) 3) as [H3|H3];
      cbn [negb]; [|split; [done|by intros (_ & ? & _)]].
    destruct (ProbablyPrime ((p - 1) / 2) 1) eqn:Hpp;
      cbn [negb]; [done|split; [done|by intros (_ & _ & ?)]].
  - destruct (Z.eqb_spec (TrueLen p) Params.BitsBlumPrime) as [Hlen|Hlen];
      cbn [negb].
    + split; [done|].
      destruct (Z.eqb_spec (p mod 4) 3) as [H3|H3]; cbn [negb]; [|done].
      split; [done|]. intros _ _ Hpp. by rewrite Hpp.
    + split; [|done]. intros _. eexists. split; reflexivity.
Qed.

(** C4 (as amended): the primality test of [ValidatePrime] is the test of
    math/big asked for exactly one round, on (p-1)/2: [ValidatePrime] is
    the check with the number of rounds set to 1; for a p of the right
    length that is 3 modulo 4, it returns nil when the test accepts (p-1)/2
    at one round and ErrNotSafePrime when it refuses; and what the test
    answers at other numbers of rounds has no part in it. *)
Theorem ValidatePrime_one_round (B : BigInt) (p : Z) :
  @ValidatePrime B p = @ValidatePrimeRounds B 1 p /\
  (TrueLen p = Params.BitsBlumPrime -> p mod 4 = 3 ->
     @ValidatePrime B p
     = if @ProbablyPrime B ((p - 1) / 2) 1 then None else Some ErrNotSafePrime) /\
  (forall B' : BigInt,
     (forall x, @ProbablyPrime B x 1 = @ProbablyPrime B' x 1) ->
     @ValidatePrime B p = @ValidatePrime B' p).
Proof.
  split; [apply ValidatePrime_unfold|]. split.
  - intros Hlen H3. rewrite ValidatePrime_unfold. unfold ValidatePrimeRounds.
    rewrite Hlen, Z.eqb_refl, H3. cbn [negb Z.eqb Pos.eqb].
    by destruct (ProbablyPrime ((p - 1) / 2) 1).
  - intros B' Hagree. rewrite !ValidatePrime_unfold. unfold ValidatePrimeRounds.
    by rewrite Hagree.
Qed.

(** A number of 1024 bits that is 3 modulo 4 is accepted on the word of a
    test that says yes at one round only, and refused on the word of a test
    that says yes from 40 rounds on. *)
Lemma ValidatePrime_one_round_witness :
  @ValidatePrime Toy.primeAtOne Toy.p1024 = None /\
  @ValidatePrime Toy.primeFrom40 Toy.p1024 = Some ErrNotSafePrime /\
  @ValidatePrime Toy.primeAtOne Toy.p1024 = @ValidatePrime Toy.alwaysPrime Toy.p1024.
Proof.
  assert (Hlen : TrueLen Toy.p1024 = Params.BitsBlumPrime) by (vm_compute; reflexivity).
  assert (H3 : Toy.p1024 mod 4 = 3) by (vm_compute; reflexivity).
  destruct (ValidatePrime_one_round Toy.primeAtOne Toy.p1024) as (_ & Hone & Hsame).
  destruct (ValidatePrime_one_round Toy.primeFrom40 Toy.p1024) as (_ & Hforty & _).
  split; [rewrite (Hone Hlen H3); vm_compute; reflexivity|].
  split; [rewrite (Hforty Hlen H3); vm_compute; reflexivity|].
  apply Hsame. intros x. reflexivity.
Defined.

Lemma p1024_checks :
  (TrueLen Toy.p1024 =? Params.BitsBlumPrime) = true /\
  (Toy.p1024 mod 4 =? 3) = true.
Proof. split; vm_compute; reflexivity. Qed.

(** C4 as the spec words it fails: no number of rounds of 40 or more
    describes the call. On a test that says yes only from 40 rounds on,
    [ValidatePrime] refuses a number that any such call would accept. *)
Lemma ValidatePrime_rounds_counterexample :
  ~ (exists rounds, 40 <= rounds /\
       forall (B : BigInt) (p : Z),
         @ValidatePrime B p = @ValidatePrimeRounds B rounds p).
Proof.
  intros (rounds & Hr & Heq).
  specialize (Heq Toy.primeFrom40 Toy.p1024).
  rewrite ValidatePrime_unfold in Heq. unfold ValidatePrimeRounds in Heq.
  destruct p1024_checks as [-> ->] in Heq. cbn [negb ProbablyPrime Toy.primeFrom40] in Heq.
  replace (40 <=? rounds) with true in Heq by (symmetry; by apply Z.leb_le).
  change (40 <=? 1) with false in Heq. discriminate Heq.
Qed.

End PaillierValidatePrime.

(** ** Key generation, round 4: the messages *)

Section Round4Messages.
Context `{Collaborators}.
Import Keygen Polynomial Round4 Engine.

(** C5 (as amended): [VerifyMessage] of round 4 accepts a message of j
    exactly when its mod proof verifies on N_j and its prm proof verifies on
    (N_j, s_j, t_j), both on the hash forked for j; the mod proof is checked
    first; a failure is the error of that proof, and the engine aborts with j
    as the culprit. No logstar proof is part of the message or checked. *)
Theorem VerifyMessage_mod_prm (r : round4) (from : ID) (body : Keygen4) :
  let h := HashForID (h_Hash (r_Helper r)) from in
  let modOK := zkmod_Verify (Mod body) h (r_N r !! from) in
  let prmOK := zkprm_Verify (Prm body) h (r_N r !! from) (r_S r !! from) (r_T r !! from) in
  (VerifyMessage r from body = None <-> modOK = true /\ prmOK = true) /\
  (modOK = false -> VerifyMessage r from body = Some ErrRound4ZKMod) /\
  (modOK = true -> prmOK = false -> VerifyMessage r from body = Some ErrRound4ZKPrm) /\
  (forall e, VerifyMessage r from body = Some e ->
     handle verify4 StoreMessage r from body = Aborted (mkSessionError [from] e)).
Proof.
  intros h modOK prmOK. unfold handle, verify4, VerifyMessage.
  fold h. fold modOK. fold prmOK.
  destruct modOK, prmOK; cbn [negb ofError]; repeat split;
    try done; try (by intros [? ?]); by intros e [= <-].
Qed.

End Round4Messages.

(** C5 as the spec words it fails: a message of "b" whose mod and prm proofs
    verify is accepted by [VerifyMessage] (and then stored by the engine),
    although no logstar proof verifies: the round does not ask for one. *)
Lemma VerifyMessage_logstar_counterexample :
  Round4.VerifyMessage Toy.r4 "b" Toy.msgGood = None /\
  Engine.handle verify4 Round4.StoreMessage Toy.r4 "b" Toy.msgGood
    = Engine.Stored Toy.r4full /\
  ~ (forall (r : Round4.round4) (from : ID) (body : Round4.Keygen4),
       Round4.VerifyMessage r from body = None ->
       exists (proof : option LogStarProof) (X : Point),
         zklogstar_Verify proof (HashForID (Round4.h_Hash (Round4.r_Helper r)) from)
                          (Round4.Share body) X (Round4.r_N r !! from) = true).
Proof.
  assert (Hv : Round4.VerifyMessage Toy.r4 "b" Toy.msgGood = None)
    by (vm_compute; reflexivity).
  split; [exact Hv|]. split; [reflexivity|].
  intros Hall. destruct (Hall _ _ _ Hv) as (proof & X & Hls).
  discriminate Hls.
Qed.

(** ** Key generation, round 4: the share *)

Section Round4Store.
Context `{Collaborators}.
Import Keygen Polynomial Round4 Engine.

Lemma Dec_abs_nonneg sk ct d :
  0 < Paillier.n (Paillier.pk sk) -> Paillier.Dec sk ct = Ok d -> 0 <= Safenum.abs d.
Proof.
  intros Hn. unfold Paillier.Dec.
  destruct (negb _); [done|].
  destruct (Paillier.nSquaredCRT _); [|done].
  cbn [deref mbind result_bind]. intros [= <-].
  by apply SetModSymmetric_abs_nonneg.
Qed.

Lemma DecShare_abs_nonneg sk share d :
  0 < Paillier.n (Paillier.pk sk) -> DecShare sk share = Ok d -> 0 <= Safenum.abs d.
Proof.
  intros Hn. destruct share as [ct|]; [|done]. by apply Dec_abs_nonneg.
Qed.

(** The check "the decrypted share did not overflow": the integer is equal
    to its reduction into the scalar field, that is, it is a scalar. *)
Lemma overflow_check d :
  0 <= Safenum.abs d ->
  Safenum.IntEq d (Scalar.Int (Scalar.NewScalarInt d)) = true <->
  Safenum.IntVal d = Safenum.IntVal d mod order.
Proof.
  intros Hd. pose proof order_gt_1 as Ho.
  rewrite IntEq_spec; [reflexivity|exact Hd|].
  unfold Scalar.Int, Scalar.NewScalarInt. cbn [Safenum.abs].
  apply Z.mod_pos_bound. lia.
Qed.

Lemma scalar_iff_reduced v : v = v mod order <-> 0 <= v < order.
Proof.
  pose proof order_gt_1 as Ho. split.
  - intros ->. apply Z.mod_pos_bound. lia.
  - intros Hv. by rewrite Z.mod_small.
Qed.

(** The assignment [r.ShareReceived[from] = Share]: afterwards the share is
    the entry of the sender, the entries of the other parties are as they
    were, and so is the rest of the round. *)
Lemma set_ShareReceived_insert (r : round4) (from : ID) (share : Z) :
  let r' := set_ShareReceived r (<[from := share]> (r_ShareReceived r)) in
  r_ShareReceived r' !! from = Some share /\
  (forall j, j <> from -> r_ShareReceived r' !! j = r_ShareReceived r !! j) /\
  sameButShares r r'.
Proof.
  cbn [set_ShareReceived r_ShareReceived]. split; [apply lookup_insert_eq|].
  split; [intros j Hj; by apply lookup_insert_ne|]. by repeat split.
Qed.

(** C6: in [StoreMessage] the share is decrypted; an error of the
    decryption is returned; a decrypted integer that its reduction into the
    scalar field changes is refused with ErrRound4Decrypt; a share s with
    s.G different from F_j(self) is refused with ErrRound4VSS; a share that
    passes both is recorded for j: after the call it is the entry of j in
    ShareReceived, while the entries of the other parties and the rest of
    the round are as before; only such a share is recorded; and whenever
    the call does not succeed, the round is as it was. *)
Theorem StoreMessage_spec (r : round4) (from : ID) (body : Keygen4) :
  0 < Paillier.n (Paillier.pk (r_PaillierSecret r)) ->
  let self := IDScalar (h_SelfID (r_Helper r)) in
  (forall e, DecShare (r_PaillierSecret r) (Share body) = Err e ->
     StoreMessage r from body = (r, Err e)) /\
  (forall d, DecShare (r_PaillierSecret r) (Share body) = Ok d ->
     let share := Safenum.IntVal d mod order in
     (Safenum.IntVal d <> share ->
        StoreMessage r from body = (r, Err ErrRound4Decrypt)) /\
     (forall F, Safenum.IntVal d = share -> r_VSSPolynomials r !! from = Some F ->
        (Scalar.ScalarBaseMult share <> Evaluate F self ->
           StoreMessage r from body = (r, Err ErrRound4VSS)) /\
        (Scalar.ScalarBaseMult share = Evaluate F self ->
           StoreMessage r from body =
             (set_ShareReceived r (<[from := share]> (r_ShareReceived r)), Ok tt) /\
           exists r',
             StoreMessage r from body = (r', Ok tt) /\
             r_ShareReceived r' !! from = Some share /\
             (forall j, j <> from -> r_ShareReceived r' !! j = r_ShareReceived r !! j) /\
             sameButShares r r'))) /\
  (forall r', StoreMessage r from body = (r', Ok tt) ->
     exists d F,
       DecShare (r_PaillierSecret r) (Share body) = Ok d /\
       0 <= Safenum.IntVal d < order /\
       r_VSSPolynomials r !! from = Some F /\
       Scalar.ScalarBaseMult (Safenum.IntVal d) = Evaluate F self /\
       r' = set_ShareReceived r (<[from := Safenum.IntVal d]> (r_ShareReceived r)) /\
       r_ShareReceived r' !! from = Some (Safenum.IntVal d) /\
       (forall j, j <> from -> r_ShareReceived r' !! j = r_ShareReceived r !! j) /\
       sameButShares r r') /\
  (forall r' res, StoreMessage r from body = (r', res) -> res <> Ok tt -> r' = r).
Proof.
  intros Hn self. unfold StoreMessage. fold self.
  destruct (DecShare (r_PaillierSecret r) (Share body)) as [d|e|] eqn:Hdec.
  2:{ repeat split; try done.
      - by intros e' [= <-].
      - by intros r' res [= <- <-]. }
  2:{ repeat split; try done. by intros r' res [= <- <-]. }
  pose proof (DecShare_abs_nonneg _ _ _ Hn Hdec) as Habs.
  pose proof (overflow_check d Habs) as Hov.
  unfold Scalar.NewScalarInt in *.
  set (share := Safenum.IntVal d mod order) in *.
  destruct (Safenum.IntEq d (Scalar.Int share)) eqn:Heq; cbn [negb].
  - assert (Hs : Safenum.IntVal d = share) by (by apply Hov).
    destruct (r_VSSPolynomials r !! from) as [F|] eqn:HF.
    + destruct (decide (Scalar.ScalarBaseMult share = Evaluate F self)) as [Hvss|Hvss].
      * rewrite bool_decide_eq_true_2 by done. cbn [negb].
        pose proof (set_ShareReceived_insert r from share) as Hrec.
        split; [done|]. split; [|split].
        -- intros d' [= <-]. split; [done|].
           intros F' _ [= <-]. split; [done|]. intros _.
           split; [done|]. eexists. split; [reflexivity|exact Hrec].
        -- intros r' [= <-]. exists d, F.
           split; [done|]. split; [by apply scalar_iff_reduced|].
           split; [done|]. split; [by rewrite Hs|]. rewrite Hs.
           split; [done|exact Hrec].
        -- by intros r' res [= <- <-].
      * rewrite bool_decide_eq_false_2 by done. cbn [negb].
        split; [done|]. split; [|split].
        -- intros d' [= <-]. split; [done|].
           intros F' _ [= <-]. split; [done|done].
        -- done.
        -- by intros r' res [= <- <-].
    + split; [done|]. split; [|split].
      * intros d' [= <-]. split; [done|]. by intros F' _ ?.
      * done.
      * by intros r' res [= <- <-].
  - assert (Hs : Safenum.IntVal d <> share).
    { intros Hs. apply Hov in Hs. congruence. }
    split; [done|]. split; [|split].
    + intros d' [= <-]. split; [done|]. by intros F' ? _.
    + done.
    + by intros r' res [= <- <-].
Qed.

End Round4Store.

(** The three ways in which "b" can be answered. *)
Lemma StoreMessage_spec_witness :
  Round4.StoreMessage Toy.r4 "b" Toy.msgOverflow = (Toy.r4, Err ErrRound4Decrypt) /\
  Round4.StoreMessage Toy.r4 "b" Toy.msgWrongShare = (Toy.r4, Err ErrRound4VSS) /\
  Round4.StoreMessage Toy.r4 "b" Toy.msgGood = (Toy.r4full, Ok tt) /\
  (exists r',
     Round4.StoreMessage Toy.r4 "b" Toy.msgGood = (r', Ok tt) /\
     Round4.r_ShareReceived r' !! "b" = Some 4 /\
     Round4.r_ShareReceived r' !! "a" = Some 3).
Proof.
  assert (Hn : 0 < Paillier.n (Paillier.pk (Round4.r_PaillierSecret Toy.r4)))
    by reflexivity.
  split; [|split; [|split]].
  - destruct (StoreMessage_spec Toy.r4 "b" Toy.msgOverflow Hn) as (_ & Hd & _).
    apply (Hd (Safenum.mkInt false 9)); [vm_compute; reflexivity|].
    vm_compute. discriminate.
  - destruct (StoreMessage_spec Toy.r4 "b" Toy.msgWrongShare Hn) as (_ & Hd & _).
    destruct (Hd (Safenum.mkInt false 2)) as [_ HF]; [vm_compute; reflexivity|].
    destruct (HF Toy.Fb) as [Hbad _];
      [vm_compute; reflexivity|reflexivity|].
    apply Hbad. vm_compute. discriminate.
  - destruct (StoreMessage_spec Toy.r4 "b" Toy.msgGood Hn) as (_ & Hd & _).
    destruct (Hd (Safenum.mkInt false 4)) as [_ HF]; [vm_compute; reflexivity|].
    destruct (HF Toy.Fb) as [_ Hgood];
      [vm_compute; reflexivity|reflexivity|].
    apply Hgood. vm_compute. reflexivity.
  - destruct (StoreMessage_spec Toy.r4 "b" Toy.msgGood Hn) as (_ & Hd & _).
    destruct (Hd (Safenum.mkInt false 4)) as [_ HF]; [vm_compute; reflexivity|].
    destruct (HF Toy.Fb) as [_ Hgood];
      [vm_compute; reflexivity|reflexivity|].
    destruct Hgood as (_ & r' & Hstore & Hfrom & Hothers & _);
      [vm_compute; reflexivity|].
    exists r'. split; [exact Hstore|]. split; [exact Hfrom|].
    rewrite Hothers by discriminate. reflexivity.
Defined.

(** ** Polynomials in the exponent *)

Section PolynomialFacts.
Context `{Curve}.
Import Polynomial.

Lemma PointAdd_identity_r P : PointAdd P NewIdentityPoint = P.
Proof. by rewrite PointAdd_comm, PointAdd_identity_l. Qed.

Lemma PointAdd_swap P Q R S :
  PointAdd (PointAdd P Q) (PointAdd R S) = PointAdd (PointAdd P R) (PointAdd Q S).
Proof.
  rewrite <- !PointAdd_assoc. f_equal.
  rewrite !PointAdd_assoc. f_equal. apply PointAdd_comm.
Qed.

Lemma sumPoints_app Ps Qs :
  sumPoints (Ps ++ Qs) = PointAdd (sumPoints Ps) (sumPoints Qs).
Proof.
  induction Ps as [|P Ps IH]; simpl.
  - by rewrite PointAdd_identity_l.
  - by rewrite IH, PointAdd_assoc.
Qed.

(** The sum of points does not depend on their order. *)
Lemma sumPoints_Permutation Ps Qs : Ps ≡ₚ Qs -> sumPoints Ps = sumPoints Qs.
Proof.
  induction 1 as [|P Ps Qs _ IH|P Q Ps|Ps Qs Rs _ IH1 _ IH2]; simpl.
  - done.
  - by rewrite IH.
  - rewrite !PointAdd_assoc. f_equal. apply PointAdd_comm.
  - by rewrite IH1.
Qed.

(** The accumulation of the loops, from the left, is that sum. *)
Lemma foldl_PointAdd acc Ps :
  foldl PointAdd acc Ps = PointAdd acc (sumPoints Ps).
Proof.
  revert acc. induction Ps as [|P Ps IH]; intros acc; simpl.
  - by rewrite PointAdd_identity_r.
  - by rewrite IH, PointAdd_assoc.
Qed.

Lemma addCoefficients_length ps qs :
  length ps = length qs -> length (addCoefficients ps qs) = length ps.
Proof.
  revert qs. induction ps as [|P ps IH]; intros [|Q qs]; simpl; try done.
  intros [= Hl]. by rewrite IH.
Qed.

Lemma evaluateFrom_add k x ps qs :
  length ps = length qs ->
  evaluateFrom k x (addCoefficients ps qs)
  = PointAdd (evaluateFrom k x ps) (evaluateFrom k x qs).
Proof.
  revert k qs. induction ps as [|P ps IH]; intros k [|Q qs]; simpl; try done.
  - intros _. by rewrite PointAdd_identity_l.
  - intros [= Hl]. rewrite IH by done.
    by rewrite ScalarMult_add_r, PointAdd_swap.
Qed.

(** Evaluation is additive. *)
Lemma Add_Evaluate F G S x :
  Add F G = Ok S ->
  Evaluate S x = PointAdd (Evaluate F x) (Evaluate G x) /\
  length (coefficients S) = length (coefficients F).
Proof.
  unfold Add.
  destruct (Nat.eqb_spec (length (coefficients F)) (length (coefficients G)))
    as [Hl|Hl]; cbn [negb]; [|done].
  intros [= <-]. unfold Evaluate. cbn [coefficients].
  split; [by apply evaluateFrom_add|by apply addCoefficients_length].
Qed.

Lemma Sum_from_Evaluate F rest S x :
  foldl (fun acc G => F' ← acc; Add F' G) (Ok F) rest = Ok S ->
  Evaluate S x
  = PointAdd (Evaluate F x) (sumPoints ((fun G => Evaluate G x) <$> rest)).
Proof.
  revert F. induction rest as [|G rest IH]; intros F; cbn [foldl fmap list_fmap].
  - intros [= <-]. by rewrite PointAdd_identity_r.
  - cbn [mbind result_bind].
    destruct (Add F G) as [FG|e|] eqn:HFG.
    + intros HS. rewrite (IH _ HS).
      destruct (Add_Evaluate _ _ _ x HFG) as [-> _].
      cbn [sumPoints foldr]. by rewrite PointAdd_assoc.
    + intros HS. exfalso. revert HS. clear.
      induction rest as [|G' rest IH]; cbn [foldl]; [done|exact IH].
    + intros HS. exfalso. revert HS. clear.
      induction rest as [|G' rest IH]; cbn [foldl]; [done|exact IH].
Qed.

(** [Sum] is the sum: the polynomial it returns takes, at every x, the sum
    of the values of the polynomials. *)
Lemma Sum_Evaluate Fs S x :
  Sum Fs = Ok S -> Evaluate S x = sumPoints ((fun F => Evaluate F x) <$> Fs).
Proof.
  destruct Fs as [|F rest]; [done|]. cbn [Sum]. apply Sum_from_Evaluate.
Qed.

Lemma Sum_from_defined t F rest :
  length (coefficients F) = t ->
  Forall (fun G => length (coefficients G) = t) rest ->
  exists S, foldl (fun acc G => F' ← acc; Add F' G) (Ok F) rest = Ok S.
Proof.
  intros HF Hrest. revert F HF.
  induction Hrest as [|G rest HG _ IH]; intros F HF; cbn [foldl].
  - by exists F.
  - assert (HFG : exists FG, Add F G = Ok FG /\ length (coefficients FG) = t).
    { unfold Add. rewrite HF, HG, Nat.eqb_refl. cbn [negb].
      eexists. split; [reflexivity|]. cbn [coefficients].
      rewrite addCoefficients_length; congruence. }
    destruct HFG as (FG & HFG & Hl).
    cbn [mbind result_bind]. rewrite HFG. by apply IH.
Qed.

(** [Sum] succeeds on polynomials, at least one, of one and the same
    degree. *)
Lemma Sum_defined t Fs :
  Fs <> [] -> Forall (fun G => length (coefficients G) = t) Fs ->
  exists S, Sum Fs = Ok S.
Proof.
  destruct Fs as [|F rest]; [done|]. intros _ HFs.
  apply Forall_cons in HFs as [HF Hrest]. by apply (Sum_from_defined t).
Qed.

Lemma foldl_result_not_Ok {A B : Type} (f : result A -> B -> result A)
    (bad : result A) (l : list B) (S : A) :
  (forall b, f bad b = bad) -> (forall a, bad <> Ok a) -> foldl f bad l <> Ok S.
Proof.
  intros Hf Hbad. induction l as [|b l IH]; cbn [foldl]; [apply Hbad|].
  by rewrite Hf.
Qed.

Lemma Sum_from_inv F rest S :
  foldl (fun acc G => F' ← acc; Add F' G) (Ok F) rest = Ok S ->
  Forall (fun G => length (coefficients G) = length (coefficients F)) rest.
Proof.
  revert F. induction rest as [|G rest IH]; intros F; cbn [foldl]; [by constructor|].
  cbn [mbind result_bind]. destruct (Add F G) as [FG|e|] eqn:HFG.
  - intros HS. destruct (Add_Evaluate _ _ _ 0 HFG) as [_ Hlen].
    constructor.
    + revert HFG. unfold Add.
      destruct (Nat.eqb_spec (length (coefficients F)) (length (coefficients G)));
        cbn [negb]; [done|discriminate].
    + rewrite <- Hlen. by apply IH.
  - intros HS. by apply foldl_result_not_Ok in HS.
  - intros HS. by apply foldl_result_not_Ok in HS.
Qed.

(** When [Sum] succeeds there was a polynomial, and all have one degree. *)
Lemma Sum_inv Fs S :
  Sum Fs = Ok S ->
  exists t, Fs <> [] /\ Forall (fun G => length (coefficients G) = t) Fs.
Proof.
  destruct Fs as [|F rest]; [done|]. cbn [Sum]. intros HS.
  exists (length (coefficients F)). split; [done|].
  constructor; [done|]. by apply (Sum_from_inv _ _ S).
Qed.

(** The order in which the polynomials are taken does not matter: Go ranges
    over the map of the polynomials in an order of its choice, and in any
    order [Sum] succeeds or fails alike, with a sum that takes the same
    values. *)
Lemma Sum_Permutation Fs Fs' S :
  Fs ≡ₚ Fs' -> Sum Fs = Ok S ->
  exists S', Sum Fs' = Ok S' /\ forall x, Evaluate S' x = Evaluate S x.
Proof.
  intros Hperm HS. destruct (Sum_inv _ _ HS) as (t & Hne & Hdeg).
  destruct (Sum_defined t Fs') as [S' HS'].
  - intros E. rewrite E in Hperm. by apply Permutation_nil_r in Hperm.
  - by rewrite <- Hperm.
  - exists S'. split; [done|]. intros x.
    rewrite (Sum_Evaluate _ _ _ HS), (Sum_Evaluate _ _ _ HS').
    apply sumPoints_Permutation. by apply fmap_Permutation.
Qed.

End PolynomialFacts.

(** ** Key generation, round 4: the new configuration *)

Section Round4Finalize.
Context `{Collaborators}.
Import Keygen Polynomial Round4.

Lemma foldl_Scalar_Add a l :
  l <> [] -> foldl Scalar.Add a l = (a + foldr Z.add 0 l) mod order.
Proof.
  pose proof order_gt_1 as Ho.
  revert a. induction l as [|s l IH]; intros a Hne; [done|].
  cbn [foldl foldr]. destruct l as [|s' l].
  - cbn [foldl foldr]. unfold Scalar.Add. f_equal. lia.
  - rewrite IH by done. unfold Scalar.Add at 1.
    rewrite Z.add_mod_idemp_l by lia. f_equal. lia.
Qed.

Lemma addShares_from r acc ids :
  (forall j, j ∈ ids -> is_Some (r_ShareReceived r !! j)) ->
  foldl (addShare r) (Ok acc) ids
  = Ok (foldl Scalar.Add acc (sharesOf (r_ShareReceived r) ids)).
Proof.
  revert acc. induction ids as [|j ids IH]; intros acc Hall; [done|].
  destruct (Hall j) as [s Hs]; [by left|].
  assert (Hstep : addShare r (Ok acc) j = Ok (Scalar.Add acc s)).
  { unfold addShare. cbn [mbind result_bind]. by rewrite Hs. }
  change (foldl (addShare r) (Ok acc) (j :: ids))
    with (foldl (addShare r) (addShare r (Ok acc) j) ids).
  rewrite Hstep, IH by (intros j' Hj'; apply Hall; by right).
  unfold sharesOf. cbn [fmap list_fmap foldl]. by rewrite Hs.
Qed.

Lemma buildPublicData_from r F acc ids :
  (forall j, j ∈ ids -> is_Some (r_PreviousPublicSharesECDSA r !! j)) ->
  exists m,
    foldl (addPublic r F) (Ok acc) ids = Ok m /\
    forall k, m !! k = if decide (k ∈ ids) then publicOf r F k else acc !! k.
Proof.
  revert acc. induction ids as [|j ids IH]; intros acc Hall.
  - exists acc. split; [done|]. intros k.
    by rewrite decide_False by apply not_elem_of_nil.
  - destruct (Hall j) as [prev Hprev]; [by left|].
    set (pub := mkPublic (PointAdd (Evaluate F (IDScalar j)) prev)
                  (r_N r !! j) (r_S r !! j) (r_T r !! j)).
    assert (Hstep : addPublic r F (Ok acc) j = Ok (<[j := pub]> acc)).
    { unfold addPublic. cbn [mbind result_bind]. by rewrite Hprev. }
    change (foldl (addPublic r F) (Ok acc) (j :: ids))
      with (foldl (addPublic r F) (addPublic r F (Ok acc) j) ids).
    rewrite Hstep.
    destruct (IH (<[j := pub]> acc)) as (m & Hm & Hlook);
      [intros j' Hj'; apply Hall; by right|].
    exists m. split; [exact Hm|]. intros k. rewrite Hlook.
    destruct (decide (k ∈ ids)) as [Hin|Hnin].
    + by rewrite decide_True by (by right).
    + destruct (decide (k = j)) as [->|Hne].
      * rewrite decide_True by (by left). rewrite lookup_insert_eq.
        unfold publicOf. by rewrite Hprev.
      * rewrite decide_False by (by intros [?|?]%elem_of_cons).
        by rewrite lookup_insert_ne.
Qed.

End Round4Finalize.

Section Round4FinalizeSpec.
Context `{Collaborators} `{!Round4.RoundHelper}.
Import Keygen Polynomial Round4 Engine.

(** C7: when every party has sent its share and has a previous public
    share, this party is one of the parties, the polynomials F_j (at least
    one) have one degree and the message can be sent, [Finalize] succeeds
    and builds a configuration in which: the secret share is the previous
    one plus the sum of the shares received from the parties, in the scalar
    field; the public share of every party k is (sum_j F_j)(k), the sum of
    the F_j(k), plus the previous public share of k, with N_k, s_k and
    t_k beside it, and no other party has public data; the threshold is
    that of the round (as a uint32), and RID, chain key, own identifier and
    the Paillier primes are those of the round. *)
Theorem Finalize_spec (r : round4) (out : list Message) (t : nat) :
  let ids := h_PartyIDs (r_Helper r) in
  let polys := (map_to_list (r_VSSPolynomials r)).*2 in
  (forall j, j ∈ ids ->
     is_Some (r_ShareReceived r !! j) /\
     is_Some (r_PreviousPublicSharesECDSA r !! j)) ->
  h_SelfID (r_Helper r) ∈ ids ->
  polys <> [] ->
  Forall (fun F => length (coefficients F) = t) polys ->
  (forall msg, exists out', SendMessage msg out = Ok out') ->
  exists (o : output) (out' : list Message),
    Finalize r out = Ok (o, out') /\
    sec_ECDSA (cfg_Secret (UpdatedConfig o))
      = (r_PreviousSecretECDSA r + sumShares (r_ShareReceived r) ids) mod order /\
    (forall k, k ∈ ids ->
       exists previous,
         r_PreviousPublicSharesECDSA r !! k = Some previous /\
         cfg_Public (UpdatedConfig o) !! k
         = Some (mkPublic
                   (PointAdd (sumPoints ((fun F => Evaluate F (IDScalar k)) <$> polys))
                             previous)
                   (r_N r !! k) (r_S r !! k) (r_T r !! k))) /\
    (forall k, k ∉ ids -> cfg_Public (UpdatedConfig o) !! k = None) /\
    cfg_Threshold (UpdatedConfig o) = r_Threshold r mod 2 ^ 32 /\
    (0 <= r_Threshold r < 2 ^ 32 -> cfg_Threshold (UpdatedConfig o) = r_Threshold r) /\
    cfg_RID (UpdatedConfig o) = r_RID r /\
    cfg_ChainKey (UpdatedConfig o) = r_ChainKey r /\
    sec_ID (cfg_Secret (UpdatedConfig o)) = h_SelfID (r_Helper r) /\
    sec_P (cfg_Secret (UpdatedConfig o)) = Paillier.p (r_PaillierSecret r) /\
    sec_Q (cfg_Secret (UpdatedConfig o)) = Paillier.q (r_PaillierSecret r).
Proof.
  intros ids polys Hall Hself Hne Hdeg Hsend.
  assert (Hids : ids <> [])
    by (intros E; rewrite E in Hself; by apply elem_of_nil in Hself).
  unfold Finalize.
  unfold addShares. fold ids.
  rewrite addShares_from by (intros j Hj; by apply Hall).
  cbn [mbind result_bind]. fold polys.
  destruct (Sum_defined t polys Hne Hdeg) as [F HF]. rewrite HF.
  cbn [mbind result_bind]. unfold buildPublicData. fold ids.
  destruct (buildPublicData_from r F ∅ ids) as (m & Hm & Hlook);
    [intros j Hj; by apply Hall|].
  rewrite Hm. cbn [mbind result_bind].
  assert (Hk : forall k, k ∈ ids ->
            exists previous,
              r_PreviousPublicSharesECDSA r !! k = Some previous /\
              m !! k = Some (mkPublic
                   (PointAdd (sumPoints ((fun F => Evaluate F (IDScalar k)) <$> polys))
                             previous)
                   (r_N r !! k) (r_S r !! k) (r_T r !! k))).
  { intros k Hkin. destruct (Hall k Hkin) as [_ [previous Hprev]].
    exists previous. split; [done|].
    rewrite Hlook, decide_True by done. unfold publicOf. rewrite Hprev.
    cbn [mbind option_bind]. by rewrite (Sum_Evaluate _ _ _ HF). }
  destruct (Hk _ Hself) as (prevSelf & _ & HmSelf). rewrite HmSelf.
  cbn [deref mbind result_bind].
  match goal with |- context [SendMessage ?msg out] =>
    destruct (Hsend msg) as [out' Hout]; rewrite Hout end.
  cbn [mbind result_bind].
  eexists _, out'. split; [reflexivity|]. cbn [UpdatedConfig cfg_Secret sec_ECDSA
    cfg_Public cfg_Threshold cfg_RID cfg_ChainKey sec_ID sec_P sec_Q].
  split.
  { unfold sumShares. apply foldl_Scalar_Add. unfold sharesOf.
    intros E. apply fmap_nil_inv in E. done. }
  split; [exact Hk|]. split.
  { intros k Hnin. rewrite Hlook, decide_False by done. apply lookup_empty. }
  split; [done|]. split; [intros Hb; by apply Z.mod_small|]. done.
Qed.

(** C8: in the output round the Schnorr response of j is verified, on the
    hash forked for j, against the public share of j in the updated
    configuration and the commitment of j; a response that does not verify
    is the error ErrRoundOutputZKSch, with which the engine aborts naming
    j; one that verifies is accepted and changes nothing; and [Finalize]
    returns the updated configuration as the result. *)
Theorem output_round_spec (r : output) (from to : ID) (body : KeygenOutput)
    (out : list Message) (public : Public) :
  cfg_Public (UpdatedConfig r) !! from = Some public ->
  let verified :=
    zksch_Verify (SchnorrResponse body)
                 (HashForID (h_Hash (r_Helper (o_round4 r))) from)
                 (pub_ECDSA public)
                 (r_SchnorrCommitments (o_round4 r) !! from) in
  let verify := fun r from body => output_VerifyMessage r from to body in
  (verified = false ->
     output_VerifyMessage r from to body = Err ErrRoundOutputZKSch /\
     handle verify output_StoreMessage r from body
       = Aborted (mkSessionError [from] ErrRoundOutputZKSch)) /\
  (verified = true ->
     output_VerifyMessage r from to body = Ok tt /\
     handle verify output_StoreMessage r from body = Stored r) /\
  output_Finalize r out = Ok (mkResult (UpdatedConfig r)).
Proof.
  intros Hpub verified verify.
  unfold handle, verify, output_VerifyMessage. rewrite Hpub.
  cbn [deref mbind result_bind]. fold verified.
  destruct verified; cbn [negb]; repeat split; done.
Qed.

End Round4FinalizeSpec.

Lemma toy_polys :
  (map_to_list (Round4.r_VSSPolynomials Toy.r4full)).*2 = [Toy.Fa; Toy.Fb].
Proof. reflexivity. Qed.

(** The round of the parties "a" and "b" with both shares stored: the new
    share of "a" is 0 + 3 + 4 = 2 modulo 5, and the public share of "b" is
    (f_a + f_b)(2).G = 0. *)
Lemma Finalize_spec_witness :
  exists (o : Round4.output) (out' : list Round4.Message),
    Round4.Finalize Toy.r4full [] = Ok (o, out') /\
    Keygen.sec_ECDSA (Keygen.cfg_Secret (Round4.UpdatedConfig o)) = 2 /\
    Keygen.cfg_Public (Round4.UpdatedConfig o) !! "b"
    = Some Toy.pubB.
Proof.
  destruct (Finalize_spec Toy.r4full [] 2) as (o & out' & HF & Hsec & Hpub & _).
  - intros j Hj. repeat (apply elem_of_cons in Hj as [->|Hj]);
      [split; eexists; reflexivity..|by apply elem_of_nil in Hj].
  - constructor.
  - rewrite toy_polys. discriminate.
  - rewrite toy_polys. repeat constructor.
  - intros msg. eexists. reflexivity.
  - exists o, out'. split; [exact HF|]. split; [rewrite Hsec; reflexivity|].
    destruct (Hpub "b") as (previous & Hprev & ->); [repeat constructor|].
    injection Hprev as <-. rewrite toy_polys. reflexivity.
Defined.

(** The whole of what [Finalize] returns there. *)
Example Finalize_toy :
  Round4.Finalize Toy.r4full []
  = Ok (Toy.outputRound,
        [Round4.mkMessage "a" ["b"] Toy.goodResponse]).
Proof. reflexivity. Qed.

(** A response of "b" that does not verify, and the end of the session. *)
Lemma output_round_spec_witness :
  Round4.output_VerifyMessage Toy.outputRound "b" "a" Toy.badResponse
  = Err ErrRoundOutputZKSch /\
  Round4.output_Finalize Toy.outputRound [] = Ok (Round4.mkResult Toy.cfg).
Proof.
  destruct (output_round_spec Toy.outputRound "b" "a" Toy.badResponse []
              Toy.pubB)
    as ([Hbad _] & _ & Hfin); [reflexivity|reflexivity|].
  split; [exact Hbad|exact Hfin].
Defined.

(** ** Signing: the set-up *)

Section SignSetup.
Context `{Collaborators} `{!Sign.SignCollaborators}.
Import Keygen Polynomial Sign.

Lemma Lagrange_lookup (signers : list ID) (k : ID) :
  Lagrange IDScalar signers !! k
  = if decide (k ∈ signers)
    then Some (lagrangeCoefficient (IDScalar <$> signers) (IDScalar k))
    else None.
Proof.
  unfold Lagrange. generalize (IDScalar <$> signers) as xs. intros xs.
  induction signers as [|j signers IH]; cbn [fmap list_fmap list_to_map foldr].
  - rewrite lookup_empty. by rewrite decide_False by apply not_elem_of_nil.
  - destruct (decide (k = j)) as [->|Hne].
    + rewrite lookup_insert_eq. rewrite decide_True; [done|by left].
    + rewrite lookup_insert_ne by done. rewrite IH.
      destruct (decide (k ∈ signers)) as [Hin|Hnin].
      * rewrite decide_True; [done|by right].
      * rewrite decide_False; [done|]. by intros [?|?]%elem_of_cons.
Qed.

(** The loop "Scale public data": what it leaves in the maps and in the
    public key. *)
Lemma scaleSigners_from config lagrange st ids :
  (forall j, j ∈ ids ->
     exists public n lagrange_j,
       cfg_Public config !! j = Some public /\ pub_N public = Some n /\
       lagrange !! j = Some lagrange_j) ->
  exists st',
    foldl (scaleSigner config lagrange) (Ok st) ids = Ok st' /\
    sc_PublicKey st'
    = PointAdd (sc_PublicKey st) (sumPoints (scaledShare config lagrange <$> ids)) /\
    (forall k, sc_ECDSA st' !! k
               = if decide (k ∈ ids) then Some (scaledShare config lagrange k)
                 else sc_ECDSA st !! k) /\
    (forall k, sc_Pedersen st' !! k
               = if decide (k ∈ ids) then pedersenOf config k
                 else sc_Pedersen st !! k).
Proof.
  revert st. induction ids as [|j ids IH]; intros st Hall.
  - exists st. split; [done|]. split.
    + cbn. by rewrite PointAdd_identity_r.
    + split; intros k; by rewrite decide_False by apply not_elem_of_nil.
  - destruct (Hall j) as (public & n & lj & Hpub & HN & Hlj); [by left|].
    set (Ej := ScalarMult lj (pub_ECDSA public)).
    set (st1 := mkScaled (<[j := Ej]> (sc_ECDSA st))
                  (<[j := Paillier.NewPublicKey n]> (sc_Paillier st))
                  (<[j := Pedersen.New (pub_N public) (pub_S public) (pub_T public)]>
                     (sc_Pedersen st))
                  (PointAdd (sc_PublicKey st) Ej)).
    assert (Hstep : scaleSigner config lagrange (Ok st) j = Ok st1).
    { unfold scaleSigner. cbn [mbind result_bind].
      rewrite Hpub. cbn [deref mbind result_bind].
      rewrite Hlj. cbn [deref mbind result_bind].
      replace (deref (pub_N public)) with (Ok n : result Z) by (by rewrite HN).
      reflexivity. }
    assert (HEj : scaledShare config lagrange j = Ej).
    { unfold scaledShare. by rewrite Hpub, Hlj. }
    assert (HPj : pedersenOf config j
                  = Some (Pedersen.New (pub_N public) (pub_S public) (pub_T public))).
    { unfold pedersenOf. by rewrite Hpub. }
    change (foldl (scaleSigner config lagrange) (Ok st) (j :: ids))
      with (foldl (scaleSigner config lagrange)
                  (scaleSigner config lagrange (Ok st) j) ids).
    rewrite Hstep.
    destruct (IH st1) as (st' & Hst' & Hkey & Hecdsa & Hped).
    { intros j' Hj'. apply Hall. by right. }
    exists st'. split; [exact Hst'|]. split; [|split].
    + rewrite Hkey. cbn [fmap list_fmap sumPoints foldr]. rewrite HEj.
      subst st1. cbn [sc_PublicKey]. by rewrite PointAdd_assoc.
    + intros k. rewrite Hecdsa. subst st1. cbn [sc_ECDSA].
      destruct (decide (k ∈ ids)) as [Hin|Hnin].
      * rewrite decide_True; [done|by right].
      * destruct (decide (k = j)) as [->|Hne].
        -- rewrite lookup_insert_eq, HEj. rewrite decide_True; [done|by left].
        -- rewrite lookup_insert_ne by done.
           rewrite decide_False; [done|]. by intros [?|?]%elem_of_cons.
    + intros k. rewrite Hped. subst st1. cbn [sc_Pedersen].
      destruct (decide (k ∈ ids)) as [Hin|Hnin].
      * rewrite decide_True; [done|by right].
      * destruct (decide (k = j)) as [->|Hne].
        -- rewrite lookup_insert_eq, HPj. rewrite decide_True; [done|by left].
        -- rewrite lookup_insert_ne by done.
           rewrite decide_False; [done|]. by intros [?|?]%elem_of_cons.
Qed.

End SignSetup.

Section SignStart.
Context `{Collaborators} `{!Sign.SignCollaborators}.
Import Keygen Polynomial Sign.

(** C9: for a message that is not empty, signers that can sign, a valid
    configuration and a helper that can be made, with public data (and a
    modulus) in the configuration for every signer and this party among the
    signers, [StartSign] succeeds; in the first round the public share of
    every signer j is X_j scaled by the Lagrange coefficient of j over the
    signers, the product over the other signers k of x_k / (x_k - x_j); the
    secret share is that of the configuration times the coefficient of this
    party; and the public key is the sum of the scaled public shares over
    the signers. *)
Theorem StartSign_scales (config : Config) (signers : list ID)
    (message : list Byte.byte) (helper : SignHelper) :
  message <> [] ->
  CanSign config (NewIDSlice signers) = true ->
  Validate config = None ->
  NewHelper protocolSignID protocolSignRounds (sec_ID (cfg_Secret config))
            (NewIDSlice signers) config (NewIDSlice signers)
            (mkBytesWithDomain "Signature Message" message) = Ok helper ->
  NewIDSlice signers ≡ₚ signers ->
  (forall j, j ∈ signers ->
     exists public n, cfg_Public config !! j = Some public /\ pub_N public = Some n) ->
  sec_ID (cfg_Secret config) ∈ signers ->
  let lagrange := Lagrange IDScalar signers in
  let lambda := fun j => lagrangeCoefficient (IDScalar <$> signers) (IDScalar j) in
  exists r1 : round1,
    StartSign config signers message = Ok (r1, helper) /\
    (forall j, j ∈ signers ->
       exists public,
         cfg_Public config !! j = Some public /\
         r1_ECDSA r1 !! j = Some (ScalarMult (lambda j) (pub_ECDSA public))) /\
    r1_SecretECDSA r1
    = Scalar.Multiply (lambda (sec_ID (cfg_Secret config)))
                      (sec_ECDSA (cfg_Secret config)) /\
    r1_PublicKey r1 = sumPoints (scaledShare config lagrange <$> signers) /\
    (forall j, j ∈ signers ->
       exists public,
         cfg_Public config !! j = Some public /\
         scaledShare config lagrange j = ScalarMult (lambda j) (pub_ECDSA public)).
Proof.
  intros Hmsg Hcan Hval Hhelper Hperm Hpublic Hself lagrange lambda.
  assert (Hlag : forall j, j ∈ signers -> lagrange !! j = Some (lambda j)).
  { intros j Hj. unfold lagrange. rewrite Lagrange_lookup.
    by rewrite decide_True by done. }
  assert (Hscaled : forall j, j ∈ signers ->
            exists public, cfg_Public config !! j = Some public /\
              scaledShare config lagrange j = ScalarMult (lambda j) (pub_ECDSA public)).
  { intros j Hj. destruct (Hpublic j Hj) as (public & n & Hpub & _).
    exists public. split; [done|]. unfold scaledShare.
    by rewrite Hpub, (Hlag j Hj). }
  destruct (scaleSigners_from config lagrange
              (mkScaled ∅ ∅ ∅ NewIdentityPoint) (NewIDSlice signers))
    as (st & Hst & Hkey & Hecdsa & Hped).
  { intros j Hj. rewrite Hperm in Hj.
    destruct (Hpublic j Hj) as (public & n & Hpub & HN).
    exists public, n, (lambda j). by rewrite (Hlag j Hj). }
  unfold StartSign.
  destruct message as [|b message]; [done|]. cbn [length Nat.eqb].
  rewrite Hcan. cbn [negb]. rewrite Hval, Hhelper.
  fold lagrange. rewrite Hst. cbn [mbind result_bind].
  rewrite (Hlag _ Hself). cbn [deref mbind result_bind].
  rewrite Hped, decide_True by (by rewrite Hperm).
  destruct (Hpublic _ Hself) as (publicSelf & nSelf & HpubSelf & _).
  unfold pedersenOf. rewrite HpubSelf. cbn [mbind option_bind deref result_bind].
  eexists. split; [reflexivity|]. cbn [r1_ECDSA r1_SecretECDSA r1_PublicKey].
  split; [|split; [done|split; [|exact Hscaled]]].
  - intros j Hj. destruct (Hscaled j Hj) as (public & Hpub & Hsc).
    exists public. split; [done|].
    rewrite Hecdsa, decide_True by (by rewrite Hperm). by rewrite Hsc.
  - rewrite Hkey. cbn [sc_PublicKey]. rewrite PointAdd_identity_l.
    apply sumPoints_Permutation. by apply fmap_Permutation.
Qed.

(** C10: [StartSign] returns an error, and so no first round, when the
    message is empty; when the signers cannot sign for the configuration;
    and when the configuration is not valid. The checks come in this order
    and before the helper and the round are built. *)
Theorem StartSign_refuses (config : Config) (signers : list ID)
    (message : list Byte.byte) :
  (length message = 0%nat ->
     StartSign config signers message = Err ErrMessageNil) /\
  (CanSign config (NewIDSlice signers) = false ->
     exists e, StartSign config signers message = Err e /\
       (length message <> 0%nat -> e = ErrNotSigningSubset)) /\
  (forall err, Validate config = Some err ->
     exists e, StartSign config signers message = Err e /\
       (length message <> 0%nat -> CanSign config (NewIDSlice signers) = true ->
        e = err)) /\
  (forall e, StartSign config signers message = Err e ->
     forall r1 helper, StartSign config signers message <> Ok (r1, helper)).
Proof.
  unfold StartSign. split; [|split; [|split]].
  - by intros ->.
  - intros Hcan. destruct (length message =? 0)%nat eqn:Hlen.
    + eexists. split; [reflexivity|]. apply Nat.eqb_eq in Hlen. done.
    + rewrite Hcan. cbn [negb]. eexists. split; [reflexivity|done].
  - intros err Hval. destruct (length message =? 0)%nat eqn:Hlen.
    + eexists. split; [reflexivity|]. apply Nat.eqb_eq in Hlen. done.
    + destruct (CanSign config (NewIDSlice signers)); cbn [negb].
      * rewrite Hval. eexists. split; [reflexivity|done].
      * eexists. split; [reflexivity|done].
  - intros e -> r1 helper. discriminate.
Qed.

End SignStart.

(** The parties "a" and "b" sign with the configuration of "a": the
    coefficients are 2 and 4, the scaled public shares 4.G and 0, and the
    secret share of "a" becomes 2 . 2 = 4. *)
Lemma StartSign_scales_witness :
  exists r1 : Sign.round1,
    Sign.StartSign Toy.cfg ["a"; "b"] Toy.hi = Ok (r1, Toy.helperAB) /\
    Sign.r1_SecretECDSA r1 = 4 /\
    Sign.r1_PublicKey r1 = Toy.P4.
Proof.
  destruct (StartSign_scales Toy.cfg ["a"; "b"] Toy.hi Toy.helperAB)
    as (r1 & Hstart & _ & Hsecret & Hkey & _).
  - discriminate.
  - reflexivity.
  - reflexivity.
  - reflexivity.
  - reflexivity.
  - intros j Hj. repeat (apply elem_of_cons in Hj as [->|Hj]);
      [eexists _, _; split; reflexivity..|by apply elem_of_nil in Hj].
  - constructor.
  - exists r1. split; [exact Hstart|].
    split; [rewrite Hsecret|rewrite Hkey]; reflexivity.
Defined.

(** ** The definitions at work *)

Example ValidatePrime_accepts :
  @Paillier.ValidatePrime Toy.alwaysPrime Toy.p1024 = None.
Proof. vm_compute. reflexivity. Qed.

Example ValidatePrime_short :
  @Paillier.ValidatePrime Toy.alwaysPrime 7
  = Some (Errorf "invalid prime size: have: %d, need %d: %w" [3; 1024]
                 ErrPrimeBadLength).
Proof. vm_compute. reflexivity. Qed.

Example ValidatePrime_not_Blum :
  @Paillier.ValidatePrime Toy.alwaysPrime (2 ^ 1023 + 1) = Some ErrNotBlum.
Proof. vm_compute. reflexivity. Qed.

Example ValidatePrime_not_safe :
  @Paillier.ValidatePrime Toy.neverPrime Toy.p1024 = Some ErrNotSafePrime.
Proof. vm_compute. reflexivity. Qed.

Example Dec_zero :
  Paillier.Dec Toy.sk77 (Paillier.mkCiphertext 0) = Err ErrInvalidCiphertext.
Proof. vm_compute. reflexivity. Qed.

Example Dec_nSquared :
  Paillier.Dec Toy.sk77 (Paillier.mkCiphertext 5929) = Err ErrInvalidCiphertext.
Proof. vm_compute. reflexivity. Qed.

Example Dec_multiple_of_7 :
  Paillier.Dec Toy.sk77 (Paillier.mkCiphertext 14) = Err ErrInvalidCiphertext.
Proof. vm_compute. reflexivity. Qed.

Example Dec_negative :
  Paillier.Dec Toy.sk77 (Paillier.mkCiphertext 5622)
  = Ok (Safenum.mkInt true 4).
Proof. vm_compute. reflexivity. Qed.

Example handle_bad_mod :
  Engine.handle verify4 Round4.StoreMessage Toy.r4 "b" Toy.msgBadMod
  = Engine.Aborted (Engine.mkSessionError ["b"] ErrRound4ZKMod).
Proof. reflexivity. Qed.

Example handle_overflow :
  Engine.handle verify4 Round4.StoreMessage Toy.r4 "b" Toy.msgOverflow
  = Engine.Aborted (Engine.mkSessionError ["b"] ErrRound4Decrypt).
Proof. reflexivity. Qed.

Example StartSign_empty_message :
  Sign.StartSign Toy.cfg ["a"; "b"] [] = Err ErrMessageNil.
Proof. reflexivity. Qed.

Example StartSign_stranger :
  Sign.StartSign Toy.cfg ["a"; "c"] Toy.hi = Err ErrNotSigningSubset.
Proof. reflexivity. Qed.

(** With the key of 7 and 11, every message of the symmetric range
    -38 .. 38 comes back from its encryption, here with the nonce 2. *)
Example Dec_Enc_round_trip :
  forallb (fun m => bool_decide
                      (decrypted (Paillier.Dec Toy.sk77
                                    (EncWithNonce (Paillier.pk Toy.sk77) m 2))
                       = Some m))
          (seqZ (-38) 77) = true.
Proof. vm_compute. reflexivity. Qed.

Section Round4Validate.
Context `{Collaborators}.
Import Round4.

(** X4: A round-4 message is well formed when it has a mod proof, a prm proof
    and an encrypted share: these are all its parts. *)
Lemma Keygen4_Validate_spec (m : Keygen4) :
  Keygen4_Validate (Some m) = None <->
  is_Some (Mod m) /\ is_Some (Prm m) /\ is_Some (Share m).
Proof.
  unfold Keygen4_Validate.
  destruct (Mod m) as [pm|], (Prm m) as [pp|], (Share m) as [ct|];
    cbn; repeat case_bool_decide; try discriminate;
    split; intros Hv; try discriminate Hv;
    try (by destruct Hv as ([? [=]] & _));
    try (by destruct Hv as (_ & [? [=]] & _));
    try (by destruct Hv as (_ & _ & [? [=]])).
  repeat split; by eexists.
Qed.

End Round4Validate.

(** * Further properties *)

(** ** Paillier: decryption inverts encryption *)

Section PaillierCorrect.
Import Safenum Paillier.

Lemma coprime_mod_pos x M : 1 < M -> Z.gcd x M = 1 -> 1 <= x mod M < M.
Proof.
  intros HM Hg. pose proof (Z.mod_pos_bound x M ltac:(lia)) as Hb.
  assert (x mod M <> 0); [|lia].
  intros H0. apply Z.mod_divide in H0; [|lia].
  pose proof (Z.gcd_greatest _ _ _ H0 (Z.divide_refl M)) as Hd.
  rewrite Hg in Hd. apply Z.divide_1_r_nonneg in Hd; lia.
Qed.

(** (1 + k x)^n = 1 + n k x modulo x^2. *)
Lemma one_plus_pow k x n :
  0 <= n -> (1 + k * x) ^ n mod (x * x) = (1 + n * k * x) mod (x * x).
Proof.
  intros Hn. pattern n. apply natlike_ind; [|clear n Hn|done].
  { rewrite Z.pow_0_r. reflexivity. }
  intros n Hn IH.
  destruct (Z.eq_dec x 0) as [->|Hx].
  { rewrite !Z.mul_0_r, !Z.add_0_r, Z.pow_1_l by lia. reflexivity. }
  rewrite Z.pow_succ_r by done.
  rewrite <- Z.mul_mod_idemp_r, IH, Z.mul_mod_idemp_r by lia.
  replace ((1 + k * x) * (1 + n * k * x))
    with (1 + Z.succ n * k * x + (n * k * k) * (x * x)) by lia.
  rewrite Z.mod_add by lia. reflexivity.
Qed.

(** A number that is 1 modulo p has a p-th power that is 1 modulo p^2. *)
Lemma pow_lift p a : 1 < p -> a mod p = 1 -> a ^ p mod (p * p) = 1.
Proof.
  intros Hp Ha.
  pose proof (Z.div_mod a p ltac:(lia)) as Hd. rewrite Ha in Hd.
  replace a with (1 + (a / p) * p) by lia.
  rewrite one_plus_pow by lia.
  replace (1 + p * (a / p) * p) with (1 + (a / p) * (p * p)) by lia.
  rewrite Z.mod_add by lia. apply Z.mod_small. nia.
Qed.

Lemma pow_one_mod a e m : 1 < m -> 0 <= e -> a mod m = 1 -> a ^ e mod m = 1.
Proof.
  intros Hm He Ha. rewrite <- Z.mod_pow_l, Ha, Z.pow_1_l by done.
  apply Z.mod_small. lia.
Qed.

Lemma prime_neq_coprime p q : Z.prime p -> Z.prime q -> p <> q -> Z.gcd p q = 1.
Proof.
  intros Hp Hq Hne. apply Z.coprime_prime_l; [done|].
  intros Hdiv. destruct Hp as [Hp1 _], Hq as [Hq1 Hq].
  assert (p <= q) by (apply Z.divide_pos_le; [lia|done]).
  apply (Hq p); [lia|done].
Qed.

Lemma prime_not_divide_unit p r M :
  Z.prime p -> (p | M) -> Z.gcd r M = 1 -> r mod p <> 0.
Proof.
  intros Hp HpM Hg H0. apply Z.mod_divide in H0; [|destruct Hp; lia].
  pose proof (Z.gcd_greatest _ _ _ H0 HpM) as Hd. rewrite Hg in Hd.
  apply Z.divide_1_r_nonneg in Hd; destruct Hp; lia.
Qed.

(** r^(p (p-1) e) is 1 modulo p^2 when p is a prime that does not divide r. *)
Lemma pow_prime_square p r e :
  Z.prime p -> r mod p <> 0 -> 0 <= e -> r ^ ((p - 1) * p * e) mod (p * p) = 1.
Proof.
  intros Hp Hr He. pose proof (Z.prime_ge_2 _ Hp) as Hp2.
  rewrite (Z.pow_mul_r r ((p - 1) * p) e) by nia.
  rewrite (Z.pow_mul_r r (p - 1) p) by lia.
  apply pow_one_mod; [nia|done|].
  apply pow_lift; [lia|]. by apply Z.fermat_nz.
Qed.

Lemma divide_coprime_mul a b c :
  Z.gcd a b = 1 -> (a | c) -> (b | c) -> (a * b | c).
Proof.
  intros Hg [k ->] Hb.
  rewrite Z.mul_comm in Hb. apply Z.gauss in Hb; [|by rewrite Z.gcd_comm].
  destruct Hb as [k' ->]. exists k'. lia.
Qed.

(** Euler's theorem for the square of N = p q: the order of the units
    modulo N^2 divides N (p-1) (q-1). *)
Lemma pow_N_phi p q r :
  Z.prime p -> Z.prime q -> p <> q -> Z.gcd r (p * q) = 1 ->
  r ^ ((p * q) * ((p - 1) * (q - 1))) mod ((p * q) * (p * q)) = 1.
Proof.
  intros Hp Hq Hne Hr.
  pose proof (Z.prime_ge_2 _ Hp) as Hp2. pose proof (Z.prime_ge_2 _ Hq) as Hq2.
  set (X := r ^ ((p * q) * ((p - 1) * (q - 1)))).
  assert (HXp : X mod (p * p) = 1).
  { unfold X. replace ((p * q) * ((p - 1) * (q - 1)))
      with ((p - 1) * p * (q * (q - 1))) by lia.
    apply pow_prime_square; [done| |nia].
    apply (prime_not_divide_unit p r (p * q)); [done|by exists q; lia|done]. }
  assert (HXq : X mod (q * q) = 1).
  { unfold X. replace ((p * q) * ((p - 1) * (q - 1)))
      with ((q - 1) * q * (p * (p - 1))) by lia.
    apply pow_prime_square; [done| |nia].
    apply (prime_not_divide_unit q r (p * q)); [done|by exists p; lia|done]. }
  assert (Hdiv : (p * p * (q * q) | X - 1)).
  { apply divide_coprime_mul.
    - apply Z.coprime_mul_l; apply Z.coprime_mul_r; by apply prime_neq_coprime.
    - apply Z.mod_divide; [nia|]. rewrite Zminus_mod, HXp.
      rewrite (Z.mod_small 1) by nia. by rewrite Z.sub_diag, Z.mod_0_l by nia.
    - apply Z.mod_divide; [nia|]. rewrite Zminus_mod, HXq.
      rewrite (Z.mod_small 1) by nia. by rewrite Z.sub_diag, Z.mod_0_l by nia. }
  destruct Hdiv as [t Ht].
  replace X with (1 + t * ((p * q) * (p * q))) by lia.
  rewrite Z.mod_add by nia. apply Z.mod_small. nia.
Qed.


Lemma gcd_succ_l N : Z.gcd (1 + N) N = 1.
Proof.
  rewrite Z.gcd_comm. replace (1 + N) with (1 + 1 * N) by lia.
  rewrite Z.gcd_add_mult_diag_r. apply Z.gcd_1_r.
Qed.

(** The residue of 1 + K N modulo N^2. *)
Lemma one_plus_mul_mod K N :
  1 < N -> (1 + K * N) mod (N * N) = 1 + (K mod N) * N.
Proof.
  intros HN. pose proof (Z.div_mod K N ltac:(lia)) as HK.
  pose proof (Z.mod_pos_bound K N ltac:(lia)) as Hb.
  replace (1 + K * N) with (1 + (K mod N) * N + (K / N) * (N * N)) by nia.
  rewrite Z.mod_add by nia. apply Z.mod_small. nia.
Qed.

(** Two integers of the symmetric range that are congruent modulo N are
    equal. *)
Lemma symmetric_range_unique N a b :
  0 < N -> a mod N = b mod N ->
  - (N / 2) <= a <= (N - 1) / 2 -> - ((N - 1) / 2) <= b <= (N - 1) / 2 -> a = b.
Proof.
  intros HN Hab Ha Hb.
  pose proof (Z.div_mod N 2 ltac:(lia)) as H1.
  pose proof (Z.mod_pos_bound N 2 eq_refl) as H1b.
  pose proof (Z.div_mod (N - 1) 2 ltac:(lia)) as H2.
  pose proof (Z.mod_pos_bound (N - 1) 2 eq_refl) as H2b.
  assert (Hdiv : (N | a - b)).
  { apply Z.mod_divide; [lia|]. rewrite Zminus_mod, Hab, Z.sub_diag.
    apply Z.mod_0_l. lia. }
  destruct Hdiv as [t Ht]. assert (t = 0) by nia. lia.
Qed.

(** The power that [Dec] takes of an encryption. *)
Lemma pow_phi_of_encryption P Q m r :
  Z.prime P -> Z.prime Q -> P <> Q -> Z.gcd r (P * Q) = 1 ->
  let N := P * Q in
  let phi := (P - 1) * (Q - 1) in
  (((1 + N) ^ (m mod N) * r ^ N) mod (N * N)) ^ phi mod (N * N)
  = 1 + ((m mod N * phi) mod N) * N.
Proof.
  intros HP HQ Hne Hr N phi.
  pose proof (Z.prime_ge_2 _ HP) as HP2. pose proof (Z.prime_ge_2 _ HQ) as HQ2.
  assert (HN : 1 < N) by (unfold N; nia).
  assert (Hphi : 0 <= phi) by (unfold phi; nia).
  pose proof (Z.mod_pos_bound m N ltac:(lia)) as Hm.
  rewrite Z.mod_pow_l.
  rewrite Z.pow_mul_l, <- !Z.pow_mul_r by lia.
  rewrite Z.mul_mod by nia.
  replace (r ^ (N * phi) mod (N * N)) with 1
    by (symmetry; by apply pow_N_phi).
  replace (1 + N) with (1 + 1 * N) by lia.
  rewrite one_plus_pow by nia.
  rewrite Z.mul_1_r, Z.mod_mod by nia.
  replace (1 + m mod N * phi * 1 * N) with (1 + (m mod N * phi) * N) by lia.
  by apply one_plus_mul_mod.
Qed.

(** X2: [Dec] decrypts: for a key made of two distinct primes P and Q, with
    phi = (P-1)(Q-1) coprime to N = P.Q, the ciphertext
    (1+N)^m . r^N mod N^2 of a message m of the symmetric range +-(N-1)/2,
    made with a nonce r coprime to N, is a valid ciphertext, and [Dec]
    returns m. *)
Theorem Dec_decrypts (P Q m r : Z) :
  Z.prime P -> Z.prime Q -> P <> Q ->
  let N := P * Q in
  Z.gcd ((P - 1) * (Q - 1)) N = 1 ->
  Z.gcd r N = 1 ->
  - ((N - 1) / 2) <= m <= (N - 1) / 2 ->
  let sk := NewSecretKeyFromPrimes P Q in
  let ct := mkCiphertext (((1 + N) ^ (m mod N) * r ^ N) mod (N * N)) in
  ct = EncWithNonce (pk sk) m r /\
  ValidateCiphertexts (pk sk) ct = true /\
  exists d, Dec sk ct = Ok d /\ IntVal d = m.
Proof.
  intros HP HQ Hne N Hphi Hr Hm sk ct.
  pose proof (Z.prime_ge_2 _ HP) as HP2. pose proof (Z.prime_ge_2 _ HQ) as HQ2.
  assert (HN : 1 < N) by (unfold N; nia).
  destruct (NewSecretKeyFromPrimes_fields P Q ltac:(lia) ltac:(lia))
    as (Hn & Hn2 & _).
  fold sk N in Hn, Hn2.
  pose proof (Z.mod_pos_bound m N ltac:(lia)) as Hmb.
  assert (Hct : ct = EncWithNonce (pk sk) m r).
  { unfold ct, EncWithNonce. by rewrite Hn, Hn2. }
  split; [exact Hct|].
  assert (Hco0 : Z.coprime ((1 + N) ^ (m mod N) * r ^ N) (N * N)).
  { apply Z.coprime_mul_l.
    - apply Z.coprime_pow_l; [lia|].
      apply Z.coprime_mul_r; apply gcd_succ_l.
    - apply Z.coprime_pow_l; [lia|]. by apply Z.coprime_mul_r. }
  assert (Hco : Z.gcd (c ct) (N * N) = 1).
  { cbn [c ct]. by apply Z.coprime_mod_l_iff. }
  assert (Hrange : 1 <= c ct < N * N).
  { cbn [c ct]. apply coprime_mod_pos; [nia|exact Hco0]. }
  assert (Hvalid : ValidateCiphertexts (pk sk) ct = true).
  { apply ValidateCiphertexts_spec. rewrite Hn2. split; [lia|done]. }
  split; [exact Hvalid|].
  pose proof (pow_phi_of_encryption P Q m r HP HQ Hne Hr) as Hpow.
  cbv zeta in Hpow. fold N in Hpow.
  unfold sk in *. rewrite Dec_unfold by lia. rewrite Hvalid.
  fold N. unfold ct. cbn [c]. rewrite Hpow.
  set (phi := (P - 1) * (Q - 1)) in *.
  pose proof (Z.mod_pos_bound (m mod N * phi) N ltac:(lia)) as HK.
  rewrite Sub_no_wrap by nia.
  unfold Div, ModMul.
  replace (1 + (m mod N * phi) mod N * N - 1) with ((m mod N * phi) mod N * N) by lia.
  rewrite Z.div_mul by lia.
  rewrite Z.mul_mod_idemp_l by lia.
  replace (m mod N * phi * Z.invmod phi N) with (m mod N * (Z.invmod phi N * phi)) by lia.
  rewrite <- Z.mul_mod_idemp_r by lia.
  rewrite Z.invmod_coprime by (done || lia).
  rewrite Z.mul_1_r, Z.mod_mod by lia.
  eexists. split; [reflexivity|].
  destruct (SetModSymmetric_spec (m mod N) N ltac:(lia)) as [Hcong Hb].
  rewrite Z.mod_mod in Hcong by lia.
  apply (symmetric_range_unique N); [lia|exact Hcong|exact Hb|exact Hm].
Qed.


Lemma TrueLen_lower x : 0 < x -> 2 ^ (TrueLen x - 1) <= x.
Proof.
  intros Hx. unfold TrueLen. destruct (Z.eqb_spec x 0) as [->|_]; [lia|].
  replace (Z.log2 x + 1 - 1) with (Z.log2 x) by lia. by apply Z.log2_spec.
Qed.

(** A prime does not divide the predecessor of an odd prime of the same
    bit length. *)
Lemma prime_not_divide_pred P Q :
  Z.prime P -> Z.odd P = true -> Z.odd Q = true -> 1 < Q ->
  TrueLen P = TrueLen Q -> ~ (P | Q - 1).
Proof.
  intros HP HoP HoQ HQ Hlen [t Ht].
  pose proof (Z.prime_ge_2 _ HP) as HP2.
  pose proof (TrueLen_lower P ltac:(lia)) as Hlow.
  pose proof (TrueLen_bound Q ltac:(lia)) as Hup.
  pose proof (TrueLen_nonneg Q) as Hk.
  assert (Hk1 : 1 <= TrueLen Q).
  { unfold TrueLen. destruct (Z.eqb_spec Q 0); [lia|].
    pose proof (Z.log2_nonneg Q). lia. }
  rewrite Hlen in Hlow.
  assert (Hpow : 2 ^ TrueLen Q = 2 * 2 ^ (TrueLen Q - 1)).
  { rewrite <- Z.pow_succ_r by lia. f_equal. lia. }
  assert (t = 1) by nia. subst t.
  assert (HQ' : Q = P + 1) by lia.
  rewrite HQ', Z.odd_add, HoP in HoQ. discriminate HoQ.
Qed.

(** X3: for two distinct odd primes of one bit length (the primes that
    [ValidatePrime] accepts have 1024 bits each and are 3 modulo 4),
    phi = (P-1)(Q-1) is coprime to N = P.Q, so that the phiInv that
    [NewSecretKeyFromPrimes] stores is the inverse of phi modulo N. *)
Theorem NewSecretKeyFromPrimes_phiInv (P Q : Z) :
  Z.prime P -> Z.prime Q -> P <> Q ->
  Z.odd P = true -> Z.odd Q = true -> TrueLen P = TrueLen Q ->
  let sk := NewSecretKeyFromPrimes P Q in
  n (pk sk) = P * Q /\
  phi sk = (P - 1) * (Q - 1) /\
  Z.gcd (phi sk) (n (pk sk)) = 1 /\
  (phiInv sk * phi sk) mod n (pk sk) = 1.
Proof.
  intros HP HQ Hne HoP HoQ Hlen sk.
  pose proof (Z.prime_ge_2 _ HP) as HP2. pose proof (Z.prime_ge_2 _ HQ) as HQ2.
  destruct (NewSecretKeyFromPrimes_fields P Q ltac:(lia) ltac:(lia))
    as (Hn & _ & _ & _ & _ & Hphi & Hinv).
  fold sk in Hn, Hphi, Hinv. rewrite Hn, Hphi, Hinv.
  assert (Hside : forall A B, Z.prime A -> Z.prime B -> Z.odd A = true ->
            Z.odd B = true -> TrueLen A = TrueLen B ->
            Z.coprime ((A - 1) * (B - 1)) A).
  { intros A B HA HB HoA HoB HAB. pose proof (Z.prime_ge_2 _ HA).
    pose proof (Z.prime_ge_2 _ HB). symmetry.
    apply Z.coprime_prime_l; [done|]. intros Hdiv.
    apply Z.gauss in Hdiv; [|by apply Z.coprime_prime_small; [|lia]].
    exact (prime_not_divide_pred A B HA HoA HoB ltac:(lia) HAB Hdiv). }
  assert (Hco : Z.gcd ((P - 1) * (Q - 1)) (P * Q) = 1).
  { apply Z.coprime_mul_r; [by apply (Hside P Q)|].
    rewrite Z.mul_comm. by apply (Hside Q P). }
  split; [done|]. split; [done|]. split; [done|].
  apply Z.invmod_coprime; [nia|done].
Qed.

Lemma prime_5 : Z.prime 5.
Proof.
  split; [lia|]. intros n Hn [k Hk].
  assert (Hc : n = 2 \/ n = 3 \/ n = 4) by lia.
  destruct Hc as [->|[->| ->]]; lia.
Qed.

Lemma prime_7 : Z.prime 7.
Proof.
  split; [lia|]. intros n Hn [k Hk].
  assert (Hc : n = 2 \/ n = 3 \/ n = 4 \/ n = 5 \/ n = 6) by lia.
  destruct Hc as [->|[->|[->|[->| ->]]]]; lia.
Qed.

Lemma prime_11 : Z.prime 11.
Proof.
  split; [lia|]. intros n Hn [k Hk].
  assert (Hc : n = 2 \/ n = 3 \/ n = 4 \/ n = 5 \/ n = 6 \/ n = 7 \/ n = 8
               \/ n = 9 \/ n = 10) by lia.
  destruct Hc as [->|[->|[->|[->|[->|[->|[->|[->| ->]]]]]]]]; lia.
Qed.

End PaillierCorrect.

(** The message -4, encrypted with the nonce 2 under the key of 7 and 11. *)
Lemma Dec_decrypts_witness :
  exists d, Paillier.Dec (Paillier.NewSecretKeyFromPrimes 7 11)
              (EncWithNonce (Paillier.pk (Paillier.NewSecretKeyFromPrimes 7 11)) (-4) 2)
            = Ok d /\ Safenum.IntVal d = -4.
Proof.
  destruct (Dec_decrypts 7 11 (-4) 2 prime_7 prime_11) as (Hct & _ & d & Hd & Hv).
  - discriminate.
  - reflexivity.
  - reflexivity.
  - vm_compute. split; discriminate.
  - exists d. split; [|exact Hv]. rewrite <- Hct. exact Hd.
Defined.

(** The primes 5 and 7, of three bits each. *)
Lemma NewSecretKeyFromPrimes_phiInv_witness :
  (Paillier.phiInv (Paillier.NewSecretKeyFromPrimes 5 7)
   * Paillier.phi (Paillier.NewSecretKeyFromPrimes 5 7))
    mod Paillier.n (Paillier.pk (Paillier.NewSecretKeyFromPrimes 5 7)) = 1.
Proof.
  destruct (NewSecretKeyFromPrimes_phiInv 5 7 prime_5 prime_7) as (_ & _ & _ & H);
    [discriminate|reflexivity|reflexivity|reflexivity|exact H].
Defined.

(** ** Key generation, round 4: the order of the messages and the shares *)

Section Round4Order.
Context `{Collaborators}.
Import Keygen Polynomial Round4.

Lemma set_ShareReceived_id (r : round4) : set_ShareReceived r (r_ShareReceived r) = r.
Proof. by destruct r. Qed.

Lemma set_ShareReceived_twice (r : round4) (m m' : gmap ID Z) :
  set_ShareReceived (set_ShareReceived r m) m' = set_ShareReceived r m'.
Proof. reflexivity. Qed.

(** What [StoreMessage] answers does not depend on the shares already
    stored: either it stores a share s, the same whatever the shares, or
    it answers with one and the same failure and stores nothing. *)
Lemma StoreMessage_cases (r : round4) (from : ID) (body : Keygen4) :
  (exists d F,
     DecShare (r_PaillierSecret r) (Share body) = Ok d /\
     Safenum.IntEq d (Scalar.Int (Scalar.NewScalarInt d)) = true /\
     r_VSSPolynomials r !! from = Some F /\
     Scalar.ScalarBaseMult (Scalar.NewScalarInt d)
     = Evaluate F (IDScalar (h_SelfID (r_Helper r))) /\
     forall m, StoreMessage (set_ShareReceived r m) from body
               = (set_ShareReceived r (<[from := Scalar.NewScalarInt d]> m), Ok tt)) \/
  (exists res, res <> Ok tt /\
     forall m, StoreMessage (set_ShareReceived r m) from body
               = (set_ShareReceived r m, res)).
Proof.
  unfold StoreMessage. cbn [set_ShareReceived r_PaillierSecret r_VSSPolynomials
                            r_Helper r_ShareReceived].
  destruct (DecShare (r_PaillierSecret r) (Share body)) as [d|e|] eqn:Hdec;
    [|right; exists (Err e); by split|right; exists Panic; by split].
  destruct (Safenum.IntEq d (Scalar.Int (Scalar.NewScalarInt d))) eqn:Heq;
    cbn [negb]; [|right; exists (Err ErrRound4Decrypt); by split].
  destruct (r_VSSPolynomials r !! from) as [F|] eqn:HF;
    [|right; exists Panic; by split].
  destruct (decide (Scalar.ScalarBaseMult (Scalar.NewScalarInt d)
                    = Evaluate F (IDScalar (h_SelfID (r_Helper r))))) as [Hvss|Hvss].
  - left. exists d, F. repeat split; try done.
    intros m. by rewrite bool_decide_eq_true_2.
  - right. exists (Err ErrRound4VSS). split; [done|].
    intros m. by rewrite bool_decide_eq_false_2.
Qed.

(** X5: The messages of a round can be stored in any order: for two different
    senders, storing the message of the first and then that of the second
    leaves the round in the state that the other order leaves it in; and
    the answer to a message, success or failure, is the same before and
    after another message is stored. *)
Theorem StoreMessage_commute (r r1 r12 : round4) (from1 from2 : ID)
    (body1 body2 : Keygen4) :
  from1 <> from2 ->
  StoreMessage r from1 body1 = (r1, Ok tt) ->
  StoreMessage r1 from2 body2 = (r12, Ok tt) ->
  exists r2,
    StoreMessage r from2 body2 = (r2, Ok tt) /\
    StoreMessage r2 from1 body1 = (r12, Ok tt) /\
    (forall from body, (StoreMessage r1 from body).2 = (StoreMessage r from body).2).
Proof.
  intros Hne H1 H2.
  destruct (StoreMessage_cases r from1 body1)
    as [(d1 & F1 & _ & _ & _ & _ & Hs1)|(res & Hres & Hs1)]; cycle 1.
  { specialize (Hs1 (r_ShareReceived r)). rewrite set_ShareReceived_id in Hs1.
    rewrite Hs1 in H1. congruence. }
  pose proof (Hs1 (r_ShareReceived r)) as H1'.
  rewrite set_ShareReceived_id, H1 in H1'. injection H1' as ->.
  destruct (StoreMessage_cases r from2 body2)
    as [(d2 & F2 & _ & _ & _ & _ & Hs2)|(res & Hres & Hs2)]; cycle 1.
  { rewrite Hs2 in H2. congruence. }
  rewrite Hs2 in H2. injection H2 as <-.
  eexists. split; [|split].
  - pose proof (Hs2 (r_ShareReceived r)) as H2'.
    rewrite set_ShareReceived_id in H2'. exact H2'.
  - rewrite Hs1. by rewrite insert_insert_ne.
  - intros from body.
    destruct (StoreMessage_cases r from body)
      as [(d & F & _ & _ & _ & _ & Hs)|(res & Hres & Hs)].
    + rewrite Hs. pose proof (Hs (r_ShareReceived r)) as Hr.
      rewrite set_ShareReceived_id in Hr. by rewrite Hr.
    + rewrite Hs. pose proof (Hs (r_ShareReceived r)) as Hr.
      rewrite set_ShareReceived_id in Hr. by rewrite Hr.
Qed.


(** X6: [StoreMessage] keeps the shares consistent, whatever the message and
    whatever it answers. *)
Theorem StoreMessage_keeps_consistent (r r' : round4) (from : ID) (body : Keygen4)
    (res : result unit) :
  sharesConsistent r ->
  StoreMessage r from body = (r', res) ->
  sharesConsistent r'.
Proof.
  intros Hinv Hstore. pose proof order_gt_1 as Ho.
  destruct (StoreMessage_cases r from body)
    as [(d & F & _ & _ & HF & Hvss & Hs)|(res' & _ & Hs)];
    specialize (Hs (r_ShareReceived r)); rewrite set_ShareReceived_id in Hs;
    rewrite Hs in Hstore; injection Hstore as <- <-; [|exact Hinv].
  intros j s. cbn [set_ShareReceived r_ShareReceived r_VSSPolynomials r_Helper].
  destruct (decide (j = from)) as [->|Hne].
  - rewrite lookup_insert_eq. intros [= <-]. split.
    + unfold Scalar.NewScalarInt. apply Z.mod_pos_bound. lia.
    + by exists F.
  - rewrite lookup_insert_ne by done. apply Hinv.
Qed.

End Round4Order.

Section Round4Consistency.
Context `{Collaborators} `{!Round4.RoundHelper}.
Import Keygen Polynomial Round4.

(** What a successful [Finalize] did. *)
Lemma Finalize_inv (r : round4) (out out' : list Message) (o : output) :
  Finalize r out = Ok (o, out') ->
  exists secret F m selfPublic,
    addShares r = Ok secret /\
    Sum (map_to_list (r_VSSPolynomials r)).*2 = Ok F /\
    buildPublicData r F = Ok m /\
    m !! h_SelfID (r_Helper r) = Some selfPublic /\
    (exists msg, SendMessage msg out = Ok out' /\
                 msg_From msg = h_SelfID (r_Helper r) /\
                 msg_To msg = OtherPartyIDs (r_Helper r)) /\
    UpdatedConfig o
    = mkConfig (r_Threshold r mod 2 ^ 32) m (r_RID r) (r_ChainKey r)
               (mkSecret (h_SelfID (r_Helper r)) secret
                         (Paillier.p (r_PaillierSecret r))
                         (Paillier.q (r_PaillierSecret r))).
Proof.
  unfold Finalize.
  destruct (addShares r) as [secret|e|] eqn:Hsec; cbn [mbind result_bind]; [|done..].
  destruct (Sum _) as [F|e|] eqn:HF; cbn [mbind result_bind]; [|done..].
  destruct (buildPublicData r F) as [m|e|] eqn:Hm; cbn [mbind result_bind]; [|done..].
  destruct (m !! h_SelfID (r_Helper r)) as [selfPublic|] eqn:Hself;
    cbn [deref mbind result_bind]; [|done].
  match goal with |- context [SendMessage ?msg out] =>
    destruct (SendMessage msg out) as [out''|e|] eqn:Hsend end;
    cbn [mbind result_bind]; [|done..].
  intros [= <- <-]. exists secret, F, m, selfPublic.
  repeat split; try done. eexists. split; [exact Hsend|]. by split.
Qed.

Lemma addShares_inv (r : round4) (acc : result Z) (ids : list ID) (secret : Z) :
  foldl (addShare r) acc ids = Ok secret ->
  forall j, j ∈ ids -> is_Some (r_ShareReceived r !! j).
Proof.
  revert acc. induction ids as [|i ids IH]; intros acc Hfold j Hj.
  - by apply elem_of_nil in Hj.
  - cbn [foldl] in Hfold. apply elem_of_cons in Hj as [->|Hj]; [|by eapply IH].
    destruct (r_ShareReceived r !! i) as [s|] eqn:Hs; [by eexists|].
    exfalso. revert Hfold.
    replace (addShare r acc i) with
      (match acc with Ok _ => Panic | Err e => Err e | Panic => Panic end : result Z).
    2:{ unfold addShare. destruct acc; cbn [mbind result_bind]; [|done..].
        by rewrite Hs. }
    destruct acc; by apply foldl_result_not_Ok.
Qed.

Lemma buildPublicData_inv (r : round4) (F : Exponent) (acc : result (gmap ID Public))
    (ids : list ID) (m : gmap ID Public) :
  foldl (addPublic r F) acc ids = Ok m ->
  forall j, j ∈ ids -> is_Some (r_PreviousPublicSharesECDSA r !! j).
Proof.
  revert acc. induction ids as [|i ids IH]; intros acc Hfold j Hj.
  - by apply elem_of_nil in Hj.
  - cbn [foldl] in Hfold. apply elem_of_cons in Hj as [->|Hj]; [|by eapply IH].
    destruct (r_PreviousPublicSharesECDSA r !! i) as [s|] eqn:Hs; [by eexists|].
    exfalso. revert Hfold.
    replace (addPublic r F acc i) with
      (match acc with Ok _ => Panic | Err e => Err e | Panic => Panic end
       : result (gmap ID Public)).
    2:{ unfold addPublic. destruct acc; cbn [mbind result_bind]; [|done..].
        by rewrite Hs. }
    destruct acc; by apply foldl_result_not_Ok.
Qed.

(** X7: [Finalize] needs a share and a previous public share of every party,
    this party among the parties, and a channel that takes the message,
    which goes from this party to the others; the configuration it returns
    holds public data for the parties and for no one else. *)
Theorem Finalize_needs (r : round4) (out out' : list Message) (o : output) :
  Finalize r out = Ok (o, out') ->
  (forall j, j ∈ h_PartyIDs (r_Helper r) ->
     is_Some (r_ShareReceived r !! j) /\
     is_Some (r_PreviousPublicSharesECDSA r !! j)) /\
  h_SelfID (r_Helper r) ∈ h_PartyIDs (r_Helper r) /\
  (exists msg, SendMessage msg out = Ok out' /\
               msg_From msg = h_SelfID (r_Helper r) /\
               msg_To msg = OtherPartyIDs (r_Helper r)) /\
  (forall j, is_Some (cfg_Public (UpdatedConfig o) !! j) <->
             j ∈ h_PartyIDs (r_Helper r)).
Proof.
  intros Hfin.
  destruct (Finalize_inv r out out' o Hfin)
    as (secret & F & m & selfPublic & Hsec & HF & Hm & Hself & Hsend & Hcfg).
  pose proof (addShares_inv r _ _ _ Hsec) as Hshares.
  pose proof (buildPublicData_inv r F _ _ _ Hm) as Hprev.
  destruct (buildPublicData_from r F ∅ (h_PartyIDs (r_Helper r)) Hprev)
    as (m' & Hm' & Hlook).
  unfold buildPublicData in Hm. rewrite Hm' in Hm. injection Hm as ->.
  assert (Hdom : forall j, is_Some (m !! j) <-> j ∈ h_PartyIDs (r_Helper r)).
  { intros j. rewrite Hlook. destruct (decide (j ∈ h_PartyIDs (r_Helper r))) as [Hin|Hnin].
    - split; [done|]. intros _. destruct (Hprev j Hin) as [prev Hp].
      unfold publicOf. rewrite Hp. by eexists.
    - rewrite lookup_empty. split; [by intros [? ?]|done]. }
  split; [|split; [|split]].
  - intros j Hj. split; [by apply Hshares|by apply Hprev].
  - apply Hdom. by eexists.
  - exact Hsend.
  - intros j. rewrite Hcfg. cbn [cfg_Public]. apply Hdom.
Qed.

Lemma ScalarBaseMult_sum (a : Z) (l : list Z) :
  (forall a b, Scalar.ScalarBaseMult (a + b)
               = PointAdd (Scalar.ScalarBaseMult a) (Scalar.ScalarBaseMult b)) ->
  Scalar.ScalarBaseMult (a + foldr Z.add 0 l)
  = PointAdd (Scalar.ScalarBaseMult a) (sumPoints (Scalar.ScalarBaseMult <$> l)).
Proof.
  intros Hadd. revert a. induction l as [|s l IH]; intros a; cbn [foldr fmap list_fmap].
  - change (sumPoints []) with NewIdentityPoint.
    by rewrite Z.add_0_r, PointAdd_identity_r.
  - rewrite Z.add_assoc, IH, Hadd. cbn [sumPoints foldr].
    by rewrite PointAdd_assoc.
Qed.

(** The polynomials of the map are those of the parties, in some order. *)
Lemma polynomials_of_parties (VSS : gmap ID Exponent) (ids : list ID) :
  NoDup ids ->
  (forall j, is_Some (VSS !! j) <-> j ∈ ids) ->
  (map_to_list VSS).*2 ≡ₚ (fun j => default (mkExponent []) (VSS !! j)) <$> ids.
Proof.
  intros Hnd Hdom.
  set (g := fun j => default (mkExponent []) (VSS !! j)).
  assert (Hperm : map_to_list VSS ≡ₚ (fun j => (j, g j)) <$> ids).
  { apply NoDup_Permutation.
    - apply NoDup_map_to_list.
    - apply (NoDup_fmap_1 fst). rewrite <- list_fmap_compose.
      replace (fst ∘ (fun j => (j, g j))) with (@id ID) by done.
      by rewrite list_fmap_id.
    - intros [j F]. rewrite elem_of_map_to_list, list_elem_of_fmap. split.
      + intros HF. exists j. split; [|apply Hdom; by eexists].
        unfold g. by rewrite HF.
      + intros (j' & [= -> ->] & Hin). apply Hdom in Hin as [F HF].
        unfold g. by rewrite HF. }
  rewrite Hperm, <- list_fmap_compose. done.
Qed.


(** X8: The public share that [Finalize] publishes for this party is the share of
    its new secret: X_self = x_self . G, when the shares recorded are
    consistent, every party has sent a polynomial and the previous public
    share is that of the previous secret. *)
Theorem Finalize_public_of_secret (r : round4) (out out' : list Message) (o : output) :
  (forall a, Scalar.ScalarBaseMult (a mod order) = Scalar.ScalarBaseMult a) ->
  (forall a b, Scalar.ScalarBaseMult (a + b)
               = PointAdd (Scalar.ScalarBaseMult a) (Scalar.ScalarBaseMult b)) ->
  NoDup (h_PartyIDs (r_Helper r)) ->
  (forall j, is_Some (r_VSSPolynomials r !! j) -> j ∈ h_PartyIDs (r_Helper r)) ->
  sharesConsistent r ->
  r_PreviousPublicSharesECDSA r !! h_SelfID (r_Helper r)
  = Some (Scalar.ScalarBaseMult (r_PreviousSecretECDSA r)) ->
  Finalize r out = Ok (o, out') ->
  exists public,
    cfg_Public (UpdatedConfig o) !! h_SelfID (r_Helper r) = Some public /\
    sec_ID (cfg_Secret (UpdatedConfig o)) = h_SelfID (r_Helper r) /\
    pub_ECDSA public
    = Scalar.ScalarBaseMult (sec_ECDSA (cfg_Secret (UpdatedConfig o))).
Proof.
  intros Hmod Hadd Hnd Hvss Hinv Hprevself Hfin.
  destruct (Finalize_inv r out out' o Hfin)
    as (secret & F & m & selfPublic & Hsec & HF & Hm & Hself & _ & Hcfg).
  set (ids := h_PartyIDs (r_Helper r)) in *.
  set (self := h_SelfID (r_Helper r)) in *.
  pose proof (addShares_inv r _ _ _ Hsec) as Hshares. fold ids in Hshares.
  pose proof (buildPublicData_inv r F _ _ _ Hm) as Hprev. fold ids in Hprev.
  destruct (buildPublicData_from r F ∅ ids Hprev) as (m' & Hm' & Hlook).
  unfold buildPublicData in Hm. fold ids in Hm. rewrite Hm' in Hm.
  injection Hm as ->.
  assert (Hselfin : self ∈ ids).
  { destruct (decide (self ∈ ids)) as [Hin|Hnin]; [done|].
    specialize (Hlook self). rewrite decide_False, lookup_empty in Hlook by done.
    congruence. }
  assert (Hne : ids <> []).
  { intros Hnil. rewrite Hnil in Hselfin. by apply elem_of_nil in Hselfin. }
  exists selfPublic. rewrite Hcfg. cbn [cfg_Public cfg_Secret sec_ID sec_ECDSA].
  split; [exact Hself|]. split; [done|].
  (* the public share *)
  specialize (Hlook self). rewrite decide_True in Hlook by done.
  rewrite Hself in Hlook. unfold publicOf in Hlook. fold self in Hprevself.
  rewrite Hprevself in Hlook. cbn in Hlook. injection Hlook as ->.
  cbn [pub_ECDSA].
  (* the secret *)
  unfold addShares in Hsec. fold ids in Hsec.
  rewrite (addShares_from r _ ids Hshares) in Hsec. injection Hsec as <-.
  rewrite foldl_Scalar_Add.
  2:{ unfold sharesOf. intros Hnil. apply fmap_nil_inv in Hnil. done. }
  rewrite Hmod, (ScalarBaseMult_sum _ _ Hadd), PointAdd_comm. f_equal.
  (* the sums *)
  rewrite (Sum_Evaluate _ _ _ HF).
  assert (Hdom : forall j, is_Some (r_VSSPolynomials r !! j) <-> j ∈ ids).
  { intros j. split; [apply Hvss|]. intros Hj.
    destruct (Hshares j Hj) as [s Hs].
    destruct (Hinv j s Hs) as (_ & G & HG & _). by eexists. }
  rewrite (sumPoints_Permutation _ _
             (fmap_Permutation _ _ _ (polynomials_of_parties _ _ Hnd Hdom))).
  rewrite <- list_fmap_compose. unfold sharesOf. rewrite <- list_fmap_compose.
  f_equal. apply list_fmap_ext. intros i j Hj. cbn.
  apply list_elem_of_lookup_2 in Hj.
  destruct (Hshares j Hj) as [s Hs].
  destruct (Hinv j s Hs) as (_ & G & HG & Heq).
  by rewrite Hs, HG.
Qed.

End Round4Consistency.

(** In the group of order 5, k.G depends on k modulo 5 only, and is additive
    in k. *)
Lemma toy_toZ_ofZ (z : Z) : Toy.toZ (Toy.ofZ z) = z mod 5.
Proof.
  unfold Toy.ofZ. pose proof (Z.mod_pos_bound z 5 eq_refl) as Hb.
  destruct (z mod 5) as [|[[[]|[]|]|[[]|[]|]|]|]; simpl; lia.
Qed.

Lemma toy_ofZ_congr (a b : Z) : a mod 5 = b mod 5 -> Toy.ofZ a = Toy.ofZ b.
Proof. intros Hab. unfold Toy.ofZ. by rewrite Hab. Qed.

Lemma toy_ScalarBaseMult_mod (a : Z) :
  Scalar.ScalarBaseMult (a mod order) = Scalar.ScalarBaseMult a.
Proof.
  unfold Scalar.ScalarBaseMult. cbn. unfold Toy.mul5. apply toy_ofZ_congr.
  cbn [Toy.toZ]. rewrite !Z.mul_1_r. apply Z.mod_mod. lia.
Qed.

Lemma toy_ScalarBaseMult_add (a b : Z) :
  Scalar.ScalarBaseMult (a + b)
  = PointAdd (Scalar.ScalarBaseMult a) (Scalar.ScalarBaseMult b).
Proof.
  unfold Scalar.ScalarBaseMult. cbn. unfold Toy.mul5, Toy.add5.
  rewrite !toy_toZ_ofZ. apply toy_ofZ_congr. cbn [Toy.toZ].
  rewrite !Z.mul_1_r. apply Z.add_mod. lia.
Qed.

(** The shares of the toy rounds are consistent. *)
Lemma toy_r4_consistent : sharesConsistent Toy.r4.
Proof.
  intros j s Hj. unfold Toy.r4 in Hj. cbn [Round4.r_ShareReceived] in Hj.
  apply lookup_singleton_Some in Hj as [<- <-].
  split; [done|]. by exists Toy.Fa.
Qed.

Lemma toy_r4full_consistent : sharesConsistent Toy.r4full.
Proof.
  intros j s Hj. unfold Toy.r4full, Toy.r4 in Hj.
  cbn [Round4.set_ShareReceived Round4.r_ShareReceived] in Hj.
  apply lookup_insert_Some in Hj as [[<- <-]|[_ Hj]].
  - split; [done|]. by exists Toy.Fa.
  - apply lookup_singleton_Some in Hj as [<- <-].
    split; [done|]. by exists Toy.Fb.
Qed.

Lemma toy_StoreMessage_b :
  Round4.StoreMessage Toy.r4 "b" Toy.msgGood = (Toy.r4full, Ok tt).
Proof. reflexivity. Qed.

Lemma toy_StoreMessage_a_then :
  Round4.StoreMessage Toy.r4full "a" Toy.msgFromA = (Toy.r4full, Ok tt).
Proof. reflexivity. Qed.

(** The messages of "b" and of "a", stored in the two orders. *)
Lemma StoreMessage_commute_witness :
  exists r2,
    Round4.StoreMessage Toy.r4 "a" Toy.msgFromA = (r2, Ok tt) /\
    Round4.StoreMessage r2 "b" Toy.msgGood = (Toy.r4full, Ok tt).
Proof.
  destruct (StoreMessage_commute Toy.r4 Toy.r4full Toy.r4full "b" "a"
              Toy.msgGood Toy.msgFromA) as (r2 & H2 & H12 & _).
  - discriminate.
  - exact toy_StoreMessage_b.
  - exact toy_StoreMessage_a_then.
  - exists r2. by split.
Defined.

(** The round of "a" once the share of "b" is stored. *)
Lemma StoreMessage_keeps_consistent_witness :
  Round4.StoreMessage Toy.r4 "b" Toy.msgGood = (Toy.r4full, Ok tt) /\
  sharesConsistent Toy.r4full.
Proof.
  split; [exact toy_StoreMessage_b|].
  exact (StoreMessage_keeps_consistent Toy.r4 Toy.r4full "b" Toy.msgGood (Ok tt)
           toy_r4_consistent toy_StoreMessage_b).
Defined.

(** What the round of "a" and "b" had, for [Finalize] to succeed. *)
Lemma Finalize_needs_witness :
  (forall j, j ∈ ["a"; "b"] ->
     is_Some (Round4.r_ShareReceived Toy.r4full !! j) /\
     is_Some (Round4.r_PreviousPublicSharesECDSA Toy.r4full !! j)) /\
  "a" ∈ ["a"; "b"] /\
  (forall j, is_Some (Keygen.cfg_Public Toy.cfg !! j) <-> j ∈ ["a"; "b"]).
Proof.
  destruct (Finalize_needs Toy.r4full []
              [Round4.mkMessage "a" ["b"] Toy.goodResponse]
              Toy.outputRound Finalize_toy)
    as (Hall & Hself & _ & Hdom).
  split; [exact Hall|]. split; [exact Hself|exact Hdom].
Defined.

(** The new share of "a" is 2, and its new public share is 2.G. *)
Lemma Finalize_public_of_secret_witness :
  exists public,
    Keygen.cfg_Public Toy.cfg !! "a" = Some public /\
    Keygen.pub_ECDSA public = Scalar.ScalarBaseMult 2.
Proof.
  destruct (Finalize_public_of_secret Toy.r4full []
              [Round4.mkMessage "a" ["b"] Toy.goodResponse] Toy.outputRound
              toy_ScalarBaseMult_mod toy_ScalarBaseMult_add)
    as (public & Hpub & _ & Hshare).
  - by apply (bool_decide_unpack _).
  - intros j [F HF]. unfold Toy.r4full, Toy.r4 in HF.
    cbn [Round4.set_ShareReceived Round4.r_VSSPolynomials] in HF.
    apply lookup_insert_Some in HF as [[<- _]|[_ HF]];
      [by left|]. apply lookup_singleton_Some in HF as [<- _]. right. by left.
  - exact toy_r4full_consistent.
  - reflexivity.
  - exact Finalize_toy.
  - exists public. split; [exact Hpub|exact Hshare].
Defined.

(** ** Signing: what a first round tells *)

Section SignStartConverse.
Context `{Collaborators} `{!Sign.SignCollaborators}.
Import Keygen Polynomial Sign.

(** A turn of the loop that succeeds found the public data and the modulus
    of the signer, and its Lagrange coefficient. *)
Lemma scaleSigner_inv config lagrange acc j st' :
  scaleSigner config lagrange acc j = Ok st' ->
  exists st public n lagrange_j,
    acc = Ok st /\ cfg_Public config !! j = Some public /\
    pub_N public = Some n /\ lagrange !! j = Some lagrange_j /\
    sc_Paillier st' = <[j := Paillier.NewPublicKey n]> (sc_Paillier st).
Proof.
  unfold scaleSigner. destruct acc as [st|e|]; cbn [mbind result_bind]; [|done..].
  destruct (cfg_Public config !! j) as [public|]; cbn [deref mbind result_bind]; [|done].
  destruct (lagrange !! j) as [lj|]; cbn [deref mbind result_bind]; [|done].
  destruct (pub_N public) as [n|] eqn:HN; cbn [deref mbind result_bind]; [|done].
  intros [= <-]. by exists st, public, n, lj.
Qed.

Lemma scaleSigner_not_Ok config lagrange (bad : result scaled) :
  (forall st, bad <> Ok st) ->
  forall j, scaleSigner config lagrange bad j = bad.
Proof. intros Hbad j. destruct bad as [st|e|]; [by destruct (Hbad st)|done..]. Qed.

Lemma scaleSigners_inv config lagrange acc ids st' :
  foldl (scaleSigner config lagrange) acc ids = Ok st' ->
  exists st,
    acc = Ok st /\
    (forall j, j ∈ ids ->
       exists public n lagrange_j,
         cfg_Public config !! j = Some public /\ pub_N public = Some n /\
         lagrange !! j = Some lagrange_j) /\
    (forall k, sc_Paillier st' !! k
               = if decide (k ∈ ids) then paillierOf config k
                 else sc_Paillier st !! k).
Proof.
  revert acc. induction ids as [|i ids IH]; intros acc Hfold.
  - cbn [foldl] in Hfold. subst acc. exists st'. split; [done|]. split.
    + intros j Hj. by apply elem_of_nil in Hj.
    + intros k. by rewrite decide_False by apply not_elem_of_nil.
  - cbn [foldl] in Hfold.
    destruct (IH _ Hfold) as (st1 & Hstep & Hall & Hpai).
    destruct (scaleSigner_inv _ _ _ _ _ Hstep)
      as (st & public & n & lj & -> & Hpub & HN & Hlj & Hst1).
    exists st. split; [done|]. split.
    + intros j Hj. apply elem_of_cons in Hj as [->|Hj]; [|by apply Hall].
      by exists public, n, lj.
    + intros k. rewrite Hpai, Hst1.
      destruct (decide (k ∈ ids)) as [Hin|Hnin].
      * rewrite decide_True; [done|by right].
      * destruct (decide (k = i)) as [->|Hne].
        -- rewrite lookup_insert_eq. rewrite decide_True by (by left).
           unfold paillierOf. rewrite Hpub. cbn. by rewrite HN.
        -- rewrite lookup_insert_ne by done.
           rewrite decide_False; [done|]. by intros [?|?]%elem_of_cons.
Qed.

(** What a successful [StartSign] did. *)
Lemma StartSign_inv config signers message r1 helper :
  StartSign config signers message = Ok (r1, helper) ->
  exists st lagrange_self pedersen_self,
    message <> [] /\
    CanSign config (NewIDSlice signers) = true /\
    Validate config = None /\
    NewHelper protocolSignID protocolSignRounds (sec_ID (cfg_Secret config))
              (NewIDSlice signers) config (NewIDSlice signers)
              (mkBytesWithDomain "Signature Message" message) = Ok helper /\
    foldl (scaleSigner config (Lagrange IDScalar signers))
          (Ok (mkScaled ∅ ∅ ∅ NewIdentityPoint)) (NewIDSlice signers) = Ok st /\
    Lagrange IDScalar signers !! sec_ID (cfg_Secret config) = Some lagrange_self /\
    sc_Pedersen st !! sec_ID (cfg_Secret config) = Some pedersen_self /\
    r1 = mkRound1 helper (sc_PublicKey st)
           (Scalar.Multiply lagrange_self (sec_ECDSA (cfg_Secret config)))
           (Config_Paillier config)
           (<[sec_ID (cfg_Secret config) := Paillier.pk (Config_Paillier config)]>
              (sc_Paillier st))
           (<[sec_ID (cfg_Secret config) :=
                Pedersen.SetCRT pedersen_self
                  (Paillier.nCRT (Paillier.pk (Config_Paillier config)))]>
              (sc_Pedersen st))
           (sc_ECDSA st) message.
Proof.
  unfold StartSign.
  destruct message as [|b message]; [done|]. cbn [length Nat.eqb].
  destruct (CanSign config (NewIDSlice signers)) eqn:Hcan; cbn [negb]; [|done].
  destruct (Validate config) as [err|] eqn:Hval; [done|].
  destruct (NewHelper _ _ _ _ _ _ _) as [h|e|] eqn:Hhelper; [|done..].
  destruct (foldl _ _ _) as [st|e|] eqn:Hst; cbn [mbind result_bind]; [|done..].
  destruct (Lagrange IDScalar signers !! _) as [ls|] eqn:Hls;
    cbn [deref mbind result_bind]; [|done].
  destruct (sc_Pedersen st !! _) as [ps|] eqn:Hps;
    cbn [deref mbind result_bind]; [|done].
  intros [= <- <-]. exists st, ls, ps. repeat split; done.
Qed.

(** X9: [StartSign] succeeds only for a message that is not empty, signers that
    can sign, a valid configuration and a helper that could be made, when
    every signer has public data with a modulus in the configuration and is
    among the signers as they were given, and this party is a signer. *)
Theorem StartSign_needs (config : Config) (signers : list ID)
    (message : list Byte.byte) (r1 : round1) (helper : SignHelper) :
  StartSign config signers message = Ok (r1, helper) ->
  message <> [] /\
  CanSign config (NewIDSlice signers) = true /\
  Validate config = None /\
  NewHelper protocolSignID protocolSignRounds (sec_ID (cfg_Secret config))
            (NewIDSlice signers) config (NewIDSlice signers)
            (mkBytesWithDomain "Signature Message" message) = Ok helper /\
  (forall j, j ∈ NewIDSlice signers ->
     j ∈ signers /\
     exists public n, cfg_Public config !! j = Some public /\ pub_N public = Some n) /\
  sec_ID (cfg_Secret config) ∈ signers /\
  sec_ID (cfg_Secret config) ∈ NewIDSlice signers /\
  r1_Helper r1 = helper /\
  r1_Message r1 = message.
Proof.
  intros Hstart.
  destruct (StartSign_inv _ _ _ _ _ Hstart)
    as (st & ls & ps & Hmsg & Hcan & Hval & Hhelper & Hst & Hls & Hps & ->).
  destruct (scaleSigners_inv _ _ _ _ _ Hst) as (st0 & [= <-] & Hall & _).
  destruct (scaleSigners_from config _ (mkScaled ∅ ∅ ∅ NewIdentityPoint) _ Hall)
    as (st' & Hst' & _ & _ & Hped).
  rewrite Hst' in Hst. injection Hst as ->.
  split; [done|]. split; [done|]. split; [done|]. split; [done|].
  split; [|split; [|split; [|done]]].
  - intros j Hj. destruct (Hall j Hj) as (public & n & lj & Hpub & HN & Hlj).
    split; [|by exists public, n].
    rewrite Lagrange_lookup in Hlj. by destruct (decide (j ∈ signers)).
  - rewrite Lagrange_lookup in Hls.
    by destruct (decide (sec_ID (cfg_Secret config) ∈ signers)).
  - rewrite Hped in Hps. cbn [sc_Pedersen] in Hps.
    destruct (decide (sec_ID (cfg_Secret config) ∈ NewIDSlice signers)); [done|].
    by rewrite lookup_empty in Hps.
Qed.

(** X10: The keys of the first round: for every signer but this party, the
    Paillier key of its modulus, without factors, and the Pedersen
    parameters of its N, s and t; for this party, the public key of its own
    secret key, with the factors, and its Pedersen parameters with the
    factors set; no key for a party that is not a signer. *)
Theorem StartSign_keys (config : Config) (signers : list ID)
    (message : list Byte.byte) (r1 : round1) (helper : SignHelper) :
  StartSign config signers message = Ok (r1, helper) ->
  let self := sec_ID (cfg_Secret config) in
  r1_SecretPaillier r1 = Config_Paillier config /\
  r1_Paillier r1 !! self = Some (Paillier.pk (Config_Paillier config)) /\
  (exists ped,
     pedersenOf config self = Some ped /\
     r1_Pedersen r1 !! self
     = Some (Pedersen.SetCRT ped (Paillier.nCRT (Paillier.pk (Config_Paillier config))))) /\
  (forall j, j <> self ->
     r1_Paillier r1 !! j
     = (if decide (j ∈ NewIDSlice signers) then paillierOf config j else None) /\
     r1_Pedersen r1 !! j
     = (if decide (j ∈ NewIDSlice signers) then pedersenOf config j else None)) /\
  (forall j, j ∈ NewIDSlice signers <->
             is_Some (r1_ECDSA r1 !! j) /\ is_Some (r1_Paillier r1 !! j) /\
             is_Some (r1_Pedersen r1 !! j)).
Proof.
  intros Hstart self.
  destruct (StartSign_inv _ _ _ _ _ Hstart)
    as (st & ls & ps & _ & _ & _ & _ & Hst & Hls & Hps & ->).
  fold self in Hls, Hps |- *.
  destruct (scaleSigners_inv _ _ _ _ _ Hst) as (st0 & [= <-] & Hall & Hpai).
  destruct (scaleSigners_from config _ (mkScaled ∅ ∅ ∅ NewIdentityPoint) _ Hall)
    as (st' & Hst' & _ & Hecdsa & Hped).
  rewrite Hst' in Hst. injection Hst as ->.
  cbn [sc_Paillier sc_Pedersen sc_ECDSA] in Hpai, Hecdsa, Hped.
  cbn [r1_SecretPaillier r1_Paillier r1_Pedersen r1_ECDSA].
  assert (Hself : self ∈ NewIDSlice signers).
  { rewrite Hped in Hps.
    destruct (decide (self ∈ NewIDSlice signers)); [done|].
    by rewrite lookup_empty in Hps. }
  split; [done|]. split; [by rewrite lookup_insert_eq|]. split; [|split].
  - exists ps. rewrite lookup_insert_eq. split; [|done].
    rewrite Hped in Hps. by rewrite decide_True in Hps by done.
  - intros j Hj. rewrite !lookup_insert_ne by done. rewrite Hpai, Hped.
    by destruct (decide (j ∈ NewIDSlice signers)).
  - intros j. rewrite Hecdsa. split.
    + intros Hj. rewrite decide_True by done. split; [by eexists|].
      destruct (decide (j = self)) as [->|Hne].
      * rewrite !lookup_insert_eq. split; by eexists.
      * rewrite !lookup_insert_ne by done. rewrite Hpai, Hped.
        rewrite !decide_True by done.
        destruct (Hall j Hj) as (public & n & lj & Hpub & HN & _).
        unfold paillierOf, pedersenOf. rewrite Hpub. cbn. rewrite HN.
        split; by eexists.
    + intros [[P HP] _]. destruct (decide (j ∈ NewIDSlice signers)); [done|].
      by rewrite lookup_empty in HP.
Qed.

(** X11: Scaling keeps the public share of this party that of its secret share:
    when the configuration holds X = x.G for this party, the first round
    holds (lambda . X) = (lambda x).G. *)
Theorem StartSign_share_of_secret (config : Config) (signers : list ID)
    (message : list Byte.byte) (r1 : round1) (helper : SignHelper)
    (public : Public) :
  (forall a b, ScalarMult a (Scalar.ScalarBaseMult b)
               = Scalar.ScalarBaseMult (Scalar.Multiply a b)) ->
  cfg_Public config !! sec_ID (cfg_Secret config) = Some public ->
  pub_ECDSA public = Scalar.ScalarBaseMult (sec_ECDSA (cfg_Secret config)) ->
  StartSign config signers message = Ok (r1, helper) ->
  r1_ECDSA r1 !! sec_ID (cfg_Secret config)
  = Some (Scalar.ScalarBaseMult (r1_SecretECDSA r1)).
Proof.
  intros Hlaw Hpub HX Hstart.
  destruct (StartSign_inv _ _ _ _ _ Hstart)
    as (st & ls & ps & _ & _ & _ & _ & Hst & Hls & Hps & ->).
  destruct (scaleSigners_inv _ _ _ _ _ Hst) as (st0 & [= <-] & Hall & _).
  destruct (scaleSigners_from config _ (mkScaled ∅ ∅ ∅ NewIdentityPoint) _ Hall)
    as (st' & Hst' & _ & Hecdsa & Hped).
  rewrite Hst' in Hst. injection Hst as ->.
  cbn [sc_ECDSA sc_Pedersen] in Hecdsa, Hped.
  cbn [r1_ECDSA r1_SecretECDSA]. rewrite Hecdsa.
  rewrite Hped in Hps.
  destruct (decide (sec_ID (cfg_Secret config) ∈ NewIDSlice signers));
    [|by rewrite lookup_empty in Hps].
  unfold scaledShare. by rewrite Hpub, Hls, HX, Hlaw.
Qed.

End SignStartConverse.

Lemma toy_ScalarMult_base (a b : Z) :
  ScalarMult a (Scalar.ScalarBaseMult b)
  = Scalar.ScalarBaseMult (Scalar.Multiply a b).
Proof.
  unfold Scalar.ScalarBaseMult, Scalar.Multiply. cbn. unfold Toy.mul5.
  rewrite toy_toZ_ofZ. apply toy_ofZ_congr. cbn [Toy.toZ].
  rewrite !Z.mul_1_r. rewrite Z.mul_mod_idemp_r by lia. by rewrite Z.mod_mod by lia.
Qed.

Lemma toy_StartSign :
  exists r1, Sign.StartSign Toy.cfg ["a"; "b"] Toy.hi = Ok (r1, Toy.helperAB).
Proof. eexists. reflexivity. Qed.

(** The session of "a" and "b" had what it takes. *)
Lemma StartSign_needs_witness :
  Toy.hi <> [] /\
  (forall j, j ∈ ["a"; "b"] ->
     exists public n,
       Keygen.cfg_Public Toy.cfg !! j = Some public /\ Keygen.pub_N public = Some n) /\
  "a" ∈ ["a"; "b"].
Proof.
  destruct toy_StartSign as [r1 Hr1].
  destruct (StartSign_needs Toy.cfg ["a"; "b"] Toy.hi r1 Toy.helperAB Hr1)
    as (Hmsg & _ & _ & _ & Hall & Hself & _).
  split; [exact Hmsg|]. split; [|exact Hself].
  intros j Hj. by apply Hall.
Defined.

(** The keys that "a" holds: its own, with the factors 7 and 11, and that
    of the modulus 161 of "b". *)
Lemma StartSign_keys_witness :
  exists r1,
    Sign.StartSign Toy.cfg ["a"; "b"] Toy.hi = Ok (r1, Toy.helperAB) /\
    Sign.r1_Paillier r1 !! "a" = Some (Paillier.pk Toy.sk77) /\
    Sign.r1_Paillier r1 !! "b" = Some (Paillier.NewPublicKey 161) /\
    Sign.r1_Pedersen r1 !! "b" = Some (Pedersen.New (Some 161) (Some 9) (Some 25)).
Proof.
  destruct toy_StartSign as [r1 Hr1]. exists r1. split; [exact Hr1|].
  destruct (StartSign_keys Toy.cfg ["a"; "b"] Toy.hi r1 Toy.helperAB Hr1)
    as (_ & Hself & _ & Hothers & _).
  split; [exact Hself|].
  destruct (Hothers "b") as [Hpai Hped]; [discriminate|].
  split; [rewrite Hpai|rewrite Hped]; reflexivity.
Defined.

(** The scaled share of "a": 4.G for the secret 4. *)
Lemma StartSign_share_of_secret_witness :
  exists r1,
    Sign.StartSign Toy.cfg ["a"; "b"] Toy.hi = Ok (r1, Toy.helperAB) /\
    Sign.r1_ECDSA r1 !! "a" = Some (Scalar.ScalarBaseMult (Sign.r1_SecretECDSA r1)).
Proof.
  destruct toy_StartSign as [r1 Hr1]. exists r1. split; [exact Hr1|].
  apply (StartSign_share_of_secret Toy.cfg ["a"; "b"] Toy.hi r1 Toy.helperAB Toy.pubA
           toy_ScalarMult_base); [reflexivity|reflexivity|exact Hr1].
Defined.

(** ** Key generation, round 2: the commitments *)

Section Round2Store.
Context `{Collaborators} `{!Round2.Round2Collaborators}.
Import Round2.

(** X12: A message that [VerifyMessage] accepts is stored: [StoreMessage]
    records its commitment for the sender, changes nothing else and returns
    nil. [StoreMessage] never returns an error; it panics exactly on the
    contents that are not a [message2] or are nil, which [VerifyMessage]
    refuses with [ErrInvalidContent], and the round is then as it was. *)
Theorem Round2_store_after_verify (r : round2) (msg : Message) :
  (VerifyMessage r msg = None ->
     exists body,
       msg_Content msg = IsMessage2 (Some body) /\
       Commitment_Validate (Commitment body) = None /\
       StoreMessage r msg
       = (set_Commitments r (<[From msg := Commitment body]> (Commitments r)), Ok tt) /\
       Commitments (StoreMessage r msg).1 !! From msg = Some (Commitment body) /\
       (forall j, j <> From msg ->
          Commitments (StoreMessage r msg).1 !! j = Commitments r !! j)) /\
  ((StoreMessage r msg).2 = Panic <->
     forall body, msg_Content msg <> IsMessage2 (Some body)) /\
  ((StoreMessage r msg).2 = Panic ->
     VerifyMessage r msg = Some ErrInvalidContent /\ (StoreMessage r msg).1 = r) /\
  (forall e, (StoreMessage r msg).2 <> Err e).
Proof.
  unfold VerifyMessage, StoreMessage.
  destruct (msg_Content msg) as [[body|]|]; cbn [fst snd].
  - split; [|split; [|split]]; [|split|done..].
    + destruct (Commitment_Validate (Commitment body)) eqn:Hval; [done|].
      intros _. exists body. split; [done|]. split; [done|]. split; [done|].
      cbn [set_Commitments Commitments]. split.
      * by rewrite lookup_insert_eq.
      * intros j Hj. by rewrite lookup_insert_ne.
    + done.
    + intros Hall. by destruct (Hall body).
  - split; [done|]. split; [|split]; [split| |]; done.
  - split; [done|]. split; [|split]; [split| |]; done.
Qed.

(** X13: [StoreMessage] does not check whether the sender has committed before:
    a second commitment of a sender replaces the first, with no error, and
    the round is as if the first had never come. *)
Theorem Round2_store_replaces (r : round2) (msg msg' : Message) :
  From msg = From msg' ->
  (StoreMessage r msg').2 = Ok tt ->
  StoreMessage (StoreMessage r msg).1 msg' = StoreMessage r msg'.
Proof.
  unfold StoreMessage. intros Hfrom.
  destruct (msg_Content msg') as [[body'|]|]; cbn [fst snd]; [|done..].
  intros _. destruct (msg_Content msg) as [[body|]|]; cbn [fst snd]; [|done..].
  cbn [set_Commitments Commitments VSSPolynomials RIDs ChainKeys ShareReceived
       ElGamalPublic PaillierPublic N S T ElGamalSecret PaillierSecret
       PedersenSecret SchnorrRand Decommitment].
  by rewrite Hfrom, insert_insert_eq.
Qed.

End Round2Store.

(** The two commitments of "b": the round keeps the second. *)
Lemma Round2_store_replaces_witness :
  Round2.Commitments (Round2.StoreMessage (Round2.StoreMessage Toy.r2 Toy.commit1).1
                                          Toy.commit2).1 !! "b"
  = Some [Byte.x02].
Proof.
  rewrite (Round2_store_replaces Toy.r2 Toy.commit1 Toy.commit2);
    reflexivity.
Defined.
